(** * Region labels of a Venn diagram: [get_labels] of modules/venn.py

  A shallow embedding of [get_labels] and of the Python built-ins it
  calls, followed by the properties of the region keys, the region sets
  and the assembled labels.

  Python values are modelled as follows:
  - [int] as [Z]; [str] as [string]; a character as [ascii];
  - a group, an iterable that can be traversed more than once (a list, a
    range, a set), as the [list A] of its elements, for a type [A] of
    hashable values with decidable equality; a [set] as [gset A];
  - a [dict] with [str] keys as [gmap string _];
  - the options [fill] as a [list string];
  - a [float] as an IEEE 754 binary64 value, [spec_float] with
    precision 53 and maximal exponent 1024;
  - an exception as a constructor of [exn], and a computation that may
    raise as a value of [result]. *)

From Stdlib Require Import ZArith Ascii SpecFloat.
From stdpp Require Import gmap strings pretty list numbers fin_sets.

Local Open Scope Z_scope.

(** ** Exceptions *)

Inductive exn : Set :=
| ZeroDivisionError
| IndexError
| KeyError.

Inductive result (A : Type) : Type :=
| Ok (a : A)
| Raise (e : exn).
Arguments Ok {A} a.
Arguments Raise {A} e.

Global Instance exn_eq_dec : EqDecision exn.
Proof. solve_decision. Defined.

Global Instance result_eq_dec `{EqDecision A} : EqDecision (result A).
Proof. solve_decision. Defined.

Global Instance result_ret : MRet result := λ A a, Ok a.
Global Instance result_bind : MBind result := λ A B f m,
  match m with
  | Ok a => f a
  | Raise e => Raise e
  end.

(** A [for] loop over [l] whose body updates the accumulator or raises. *)
Fixpoint for_each {S X : Type} (body : S → X → result S) (s : S) (l : list X)
  : result S :=
  match l with
  | [] => Ok s
  | x :: l' => s' ← body s x; for_each body s' l'
  end.

(** ** The built-ins used by [get_labels] *)

Module Py.

(** [range(a, b)] *)
Definition range (a b : Z) : list Z := seqZ a (b - a).

(** [l[i]] for a list and a non-negative index *)
Definition list_getitem {X : Type} (l : list X) (i : nat) : result X :=
  match l !! i with
  | Some x => Ok x
  | None => Raise IndexError
  end.

(** [l[-1]] *)
Definition list_last {X : Type} (l : list X) : result X :=
  match last l with
  | Some x => Ok x
  | None => Raise IndexError
  end.

(** [s[i]] for a string and a non-negative index *)
Definition str_getitem (s : string) (i : nat) : result ascii :=
  match String.get i s with
  | Some c => Ok c
  | None => Raise IndexError
  end.

(** [d[k]] for a dict *)
Definition dict_getitem {V : Type} (d : gmap string V) (k : string) : result V :=
  match d !! k with
  | Some v => Ok v
  | None => Raise KeyError
  end.

(** The keys a [for k in d] loop visits, each once. The loops of
    [get_labels] over a dict update the entry of the visited key only, so
    the order of the visit does not show in their result. *)
Definition dict_keys {V : Type} (d : gmap string V) : list string :=
  (map_to_list d).*1.

(** The binary digits of a positive number, most significant first,
    in front of [acc]. *)
Fixpoint bin_digits (p : positive) (acc : string) : string :=
  match p with
  | xH => String "1" acc
  | xO p' => bin_digits p' (String "0" acc)
  | xI p' => bin_digits p' (String "1" acc)
  end.

(** [bin(n)] *)
Definition bin (n : Z) : string :=
  match n with
  | Z0 => "0b0"
  | Zpos p => "0b" +:+ bin_digits p ""
  | Zneg p => "-0b" +:+ bin_digits p ""
  end.

(** [s.split(sep)] for a non-empty separator: the pieces between the
    occurrences of [sep], found from left to right without overlap.
    [skip] counts the characters of a matched separator still to pass,
    [cur] is the current piece in reverse. *)
Fixpoint split_go (sep : string) (skip : nat) (cur : string) (s : string)
  : list string :=
  match s with
  | EmptyString => [String.rev cur]
  | String c s' =>
      match skip with
      | S k => split_go sep k cur s'
      | O =>
          if String.prefix sep s
          then String.rev cur :: split_go sep (Nat.pred (String.length sep)) "" s'
          else split_go sep O (String c cur) s'
      end
  end.
Definition split (s sep : string) : list string := split_go sep O "" s.

(** [n * "0"] *)
Fixpoint zeros (n : nat) : string :=
  match n with
  | O => ""
  | S n' => String "0" (zeros n')
  end.

(** [s.zfill(width)]: zeros are added on the left, after a leading sign. *)
Definition zfill (s : string) (width : nat) : string :=
  let fill := zeros (width - String.length s) in
  match s with
  | String "+" s' => String "+" (fill +:+ s')
  | String "-" s' => String "-" (fill +:+ s')
  | _ => fill +:+ s
  end.

(** [str(n)] for an [int] *)
Definition str (n : Z) : string := pretty n.

(** [len(s)] for a set *)
Definition len `{Countable A} (s : gset A) : Z := Z.of_nat (size s).

(** *** Floats *)

Definition prec : Z := 53.
Definition emax : Z := 1024.

(** The conversion of an [int] operand of a float operation, rounding to
    nearest even. A length is below [2^63], far from the overflow of the
    conversion. *)
Definition float_of_int (n : Z) : spec_float :=
  binary_normalize prec emax n 0 false.

Definition float_mul (x y : spec_float) : spec_float := SFmul prec emax x y.

(** [x / y] on floats raises when the divisor is zero. *)
Definition float_truediv (x y : spec_float) : result spec_float :=
  match y with
  | S754_zero _ => Raise ZeroDivisionError
  | _ => Ok (SFdiv prec emax x y)
  end.

(** The integer nearest to [m * 2^e * 10], ties to even. *)
Definition round_tenths (m : positive) (e : Z) : Z :=
  match e with
  | Zneg p =>
      let den := Z.pow_pos 2 p in
      let num := Zpos m * 10 in
      let q := num / den in
      let r := num mod den in
      match 2 * r ?= den with
      | Lt => q
      | Gt => q + 1
      | Eq => if Z.even q then q else q + 1
      end
  | _ => Zpos m * 2 ^ e * 10
  end.

(** ["%.1f" % x]: the decimal expansion of [x] correctly rounded to one
    digit after the point. *)
Definition format_f1 (x : spec_float) : string :=
  match x with
  | S754_nan => "nan"
  | S754_infinity s => if s then "-inf" else "inf"
  | S754_zero s => if s then "-0.0" else "0.0"
  | S754_finite s m e =>
      let t := round_tenths m e in
      (if s then "-" else "") +:+ str (t / 10) +:+ "." +:+ str (t mod 10)
  end.

End Py.

(** ** [get_labels] *)

Section GetLabels.
Context `{Countable A}.

(** [[set(data[i]) for i in range(N)]] *)
Fixpoint make_sets (data : list (list A)) (idx : list nat) : result (list (gset A)) :=
  match idx with
  | [] => Ok []
  | i :: idx' =>
      d ← Py.list_getitem data i;
      rest ← make_sets data idx';
      Ok (list_to_set d :: rest)
  end.

(** [set(chain( *data))] *)
Definition universe (data : list (list A)) : gset A :=
  list_to_set (concat data).

(** [[sets_data[i] for i in range(N) if key[i] == flag]] *)
Fixpoint select_sets (sets_data : list (gset A)) (key : string) (flag : ascii)
    (idx : list nat) : result (list (gset A)) :=
  match idx with
  | [] => Ok []
  | i :: idx' =>
      c ← Py.str_getitem key i;
      if decide (c = flag)
      then s ← Py.list_getitem sets_data i;
           rest ← select_sets sets_data key flag idx';
           Ok (s :: rest)
      else select_sets sets_data key flag idx'
  end.

(** The key of the loop variable [n]:
    [bin(n).split('0b')[-1].zfill(N)]. *)
Definition region_key (N : nat) (n : Z) : result string :=
  digits ← Py.list_last (Py.split (Py.bin n) "0b");
  Ok (Py.zfill digits N).

(** The value computed for [key] by one turn of the loop. *)
Definition region_value (N : nat) (s_all : gset A) (sets_data : list (gset A))
    (key : string) : result (gset A) :=
  let value := s_all in
  sets_for_intersection ← select_sets sets_data key "1" (seq 0 N);
  sets_for_difference ← select_sets sets_data key "0" (seq 0 N);
  let value := foldl (λ value s, value ∩ s) value sets_for_intersection in
  let value := foldl (λ value s, value ∖ s) value sets_for_difference in
  Ok value.

(** One turn of [for n in range(1, 2**N)]. *)
Definition region_step (N : nat) (s_all : gset A) (sets_data : list (gset A))
    (set_collections : gmap string (gset A)) (n : Z)
  : result (gmap string (gset A)) :=
  key ← region_key N n;
  value ← region_value N s_all sets_data key;
  Ok (<[key := value]> set_collections).

(** The first half of [get_labels]: the dict [set_collections]. *)
Definition region_sets (data : list (list A)) : result (gmap string (gset A)) :=
  let N := length data in
  sets_data ← make_sets data (seq 0 N);
  let s_all := universe data in
  let set_collections := ∅ in
  for_each (region_step N s_all sets_data) set_collections
           (Py.range 1 (2 ^ Z.of_nat N)).

(** [labels[k] = k + ": "] *)
Definition logic_step (labels : gmap string string) (k : string)
  : result (gmap string string) :=
  Ok (<[k := k +:+ ": "]> labels).

(** [labels[k] += str(len(set_collections[k]))] *)
Definition number_step (set_collections : gmap string (gset A))
    (labels : gmap string string) (k : string) : result (gmap string string) :=
  old ← Py.dict_getitem labels k;
  value ← Py.dict_getitem set_collections k;
  Ok (<[k := old +:+ Py.str (Py.len value)]> labels).

(** ["(%.1f%%)" % (100.0 * len(value) / data_size)] *)
Definition percent_text (value_len data_size : Z) : result string :=
  x ← Py.float_truediv
        (Py.float_mul (Py.float_of_int 100) (Py.float_of_int value_len))
        (Py.float_of_int data_size);
  Ok ("(" +:+ Py.format_f1 x +:+ "%)").

(** [labels[k] += "(%.1f%%)" % (100.0 * len(set_collections[k]) / data_size)] *)
Definition percent_step (set_collections : gmap string (gset A)) (data_size : Z)
    (labels : gmap string string) (k : string) : result (gmap string string) :=
  old ← Py.dict_getitem labels k;
  value ← Py.dict_getitem set_collections k;
  text ← percent_text (Py.len value) data_size;
  Ok (<[k := old +:+ text]> labels).

Definition get_labels (data : list (list A)) (fill : list string)
  : result (gmap string string) :=
  set_collections ← region_sets data;
  let s_all := universe data in
  let labels := (λ _, "") <$> set_collections in
  labels ← (if decide ("logic" ∈ fill)
            then for_each logic_step labels (Py.dict_keys set_collections)
            else Ok labels);
  labels ← (if decide ("number" ∈ fill)
            then for_each (number_step set_collections) labels
                          (Py.dict_keys set_collections)
            else Ok labels);
  labels ← (if decide ("percent" ∈ fill)
            then let data_size := Py.len s_all in
                 for_each (percent_step set_collections data_size) labels
                          (Py.dict_keys set_collections)
            else Ok labels);
  Ok labels.

(** The default value of the parameter [fill]. *)
Definition default_fill : list string := ["number"].

(** A call of [get_labels] with [fill] given or left out. *)
Definition call_get_labels (data : list (list A)) (fill : option (list string))
  : result (gmap string string) :=
  get_labels data (default default_fill fill).

End GetLabels.

(** ** The drawing functions

    The calls to matplotlib are recorded in the order in which they are
    made; what matplotlib does with them is outside this file. *)

(** A numeric argument, an [int] or a [float]. *)
Inductive number : Set :=
| Int (n : Z)
| Float (x : spec_float).

(** The float written as the decimal literal with the digits [digits], the
    last [places] of them after the point: the binary64 value nearest to
    [digits / 10^places]. *)
Definition float_literal (digits : Z) (places : nat) : spec_float :=
  SFdiv Py.prec Py.emax (Py.float_of_int digits) (Py.float_of_int (10 ^ Z.of_nat places)).

Definition fl (digits : Z) (places : nat) : number := Float (float_literal digits places).

(** A colour, the list of its components. *)
Definition color : Type := list number.

Definition to_float (a : number) : spec_float :=
  match a with
  | Int n => Py.float_of_int n
  | Float x => x
  end.

(** [a / b] for a float [b] *)
Definition div_float (a : number) (b : spec_float) : result number :=
  x ← Py.float_truediv (to_float a) b;
  Ok (Float x).

(** The table [default_colors] as first assigned: r, g, b, a. *)
Definition default_colors_table : list (list number) :=
  [ [Int 92; Int 192; Int 98; fl 5 1];
    [Int 90; Int 155; Int 212; fl 5 1];
    [Int 246; Int 236; Int 86; fl 6 1];
    [Int 241; Int 90; Int 96; fl 4 1];
    [Int 255; Int 117; Int 0; fl 3 1];
    [Int 82; Int 82; Int 190; fl 2 1] ].

(** [[i[0] / 255.0, i[1] / 255.0, i[2] / 255.0, i[3]]] *)
Definition scale_color (i : list number) : result color :=
  i0 ← Py.list_getitem i 0;
  r ← div_float i0 (float_literal 2550 1);
  i1 ← Py.list_getitem i 1;
  g ← div_float i1 (float_literal 2550 1);
  i2 ← Py.list_getitem i 2;
  b ← div_float i2 (float_literal 2550 1);
  a ← Py.list_getitem i 3;
  Ok [r; g; b; a].

(** [[... for i in default_colors]] *)
Fixpoint scale_colors (table : list (list number)) : result (list color) :=
  match table with
  | [] => Ok []
  | i :: table' =>
      c ← scale_color i;
      rest ← scale_colors table';
      Ok (c :: rest)
  end.

(** [default_colors] after the second assignment. *)
Definition default_colors : list color :=
  match scale_colors default_colors_table with
  | Ok l => l
  | Raise _ => []
  end.

Module Mpl.

Inductive figure : Set :=
| Figure (num : number).

Inductive axes : Set :=
| Axes (fig : figure) (position : Z) (aspect : string).

Inductive patch : Type :=
| Ellipse (xy : number * number) (width height angle : number) (color : color)
| Polygon (xy : list (number * number)) (closed : bool) (color : color).

Inductive legend : Set :=
| Legend (ax : axes) (labels : list string) (loc : string) (fancybox : bool).

Inductive frame : Set :=
| Frame (leg : legend).

(** The calls that change a figure. *)
Inductive call : Type :=
| plt_figure (num : number) (figsize : number * number) (dpi : number)
| add_subplot (fig : figure) (position : Z) (aspect : string)
| set_axis_off (ax : axes)
| set_ylim (ax : axes) (bottom top : number)
| set_xlim (ax : axes) (left right : number)
| add_patch (ax : axes) (p : patch)
| text (ax : axes) (x y : number) (s : string)
       (horizontalalignment verticalalignment : string) (fontsize : number)
       (color : color)
| ax_legend (ax : axes) (labels : list string) (loc : string) (fancybox : bool)
| set_alpha (fr : frame) (alpha : number).

End Mpl.

(** A computation that calls matplotlib: its result or exception, and the
    calls made up to there. *)
Definition plot (X : Type) : Type := (result X * list Mpl.call)%type.

Global Instance plot_ret : MRet plot := λ X x, (Ok x, []).
Global Instance plot_bind : MBind plot := λ X Y f m,
  match m with
  | (Ok x, calls) => let '(r, calls') := f x in (r, calls ++ calls')
  | (Raise e, calls) => (Raise e, calls)
  end.

Definition do_call (c : Mpl.call) : plot unit := (Ok tt, [c]).
Definition lift {X : Type} (r : result X) : plot X := (r, []).

(** [plt.figure(num, figsize=figsize, dpi=dpi)] *)
Definition plt_figure (num : number) (figsize : number * number) (dpi : number)
  : plot Mpl.figure :=
  _ ← do_call (Mpl.plt_figure num figsize dpi);
  mret (Mpl.Figure num).

(** [fig.add_subplot(position, aspect=aspect)] *)
Definition add_subplot (fig : Mpl.figure) (position : Z) (aspect : string)
  : plot Mpl.axes :=
  _ ← do_call (Mpl.add_subplot fig position aspect);
  mret (Mpl.Axes fig position aspect).

(** [ax.legend(labels, loc=loc, fancybox=fancybox)] *)
Definition ax_legend (ax : Mpl.axes) (labels : list string) (loc : string)
    (fancybox : bool) : plot Mpl.legend :=
  _ ← do_call (Mpl.ax_legend ax labels loc fancybox);
  mret (Mpl.Legend ax labels loc fancybox).

Definition draw_ellipse (fig : Mpl.figure) (ax : Mpl.axes) (x y w h a : number)
    (fillcolor : color) : plot unit :=
  let e := Mpl.Ellipse (x, y) w h a fillcolor in
  do_call (Mpl.add_patch ax e).


(** The default of the parameter [color] of [draw_text]. *)
Definition black : color := [Int 0; Int 0; Int 0; Int 1].

Definition draw_text (fig : Mpl.figure) (ax : Mpl.axes) (x y : number)
    (text : string) (color : option color) : plot unit :=
  do_call (Mpl.text ax x y text "center" "center" (Int 14) (default black color)).

(** [[default_colors[i] for i in range(n)]] *)
Fixpoint first_colors (idx : list nat) : result (list color) :=
  match idx with
  | [] => Ok []
  | i :: idx' =>
      c ← Py.list_getitem default_colors i;
      rest ← first_colors idx';
      Ok (c :: rest)
  end.

(** The keyword arguments that the functions read from [**options]. *)
Record options : Type := {
  opt_colors : option (list color);
  opt_figsize : option (number * number);
  opt_dpi : option number
}.

Definition venn2 (labels : gmap string string) (names : list string)
    (options : options) : plot (Mpl.figure * Mpl.axes) :=
  standard ← lift (first_colors (seq 0 2));
  let colors := default standard (opt_colors options) in
  let figsize := default (Int 9, Int 7) (opt_figsize options) in
  let dpi := default (Int 96) (opt_dpi options) in
  fig ← plt_figure (Int 0) figsize dpi;
  ax ← add_subplot fig 111 "equal";
  _ ← do_call (Mpl.set_axis_off ax);
  _ ← do_call (Mpl.set_ylim ax (fl 0 1) (fl 7 1));
  _ ← do_call (Mpl.set_xlim ax (fl 0 1) (fl 10 1));
  c ← lift (Py.list_getitem colors 0);
  _ ← draw_ellipse fig ax (fl 375 3) (fl 3 1) (fl 5 1) (fl 5 1) (fl 0 1) c;
  c ← lift (Py.list_getitem colors 1);
  _ ← draw_ellipse fig ax (fl 625 3) (fl 3 1) (fl 5 1) (fl 5 1) (fl 0 1) c;
  n ← lift (Py.list_getitem names 0);
  c ← lift (Py.list_getitem colors 0);
  _ ← draw_text fig ax (fl 20 2) (fl 56 2) n (Some c);
  n ← lift (Py.list_getitem names 1);
  c ← lift (Py.list_getitem colors 1);
  _ ← draw_text fig ax (fl 80 2) (fl 56 2) n (Some c);
  leg ← ax_legend ax names "best" true;
  _ ← do_call (Mpl.set_alpha (Mpl.Frame leg) (fl 5 1));
  mret (fig, ax).





(** The default of the parameter [names] of each function. *)
Definition venn2_names : list string := ["A"; "B"].
Definition venn3_names : list string := ["A"; "B"; "C"].
Definition venn4_names : list string := ["A"; "B"; "C"; "D"].
Definition venn5_names : list string := ["A"; "B"; "C"; "D"; "E"].

(** The groups of the example in the docstring of [get_labels]. *)
Definition reference_data : list (list Z) :=
  [Py.range 0 10; Py.range 5 15; Py.range 3 8].

(** Two groups, and the labels that all three options give for them. *)
Definition nested_data : list (list Z) := [[1; 2; 3; 4; 5; 6; 7; 8]; [8]].
Definition nested_labels : gmap string string :=
  list_to_map [("01", "01: 0(0.0%)"); ("10", "10: 7(87.5%)"); ("11", "11: 1(12.5%)")].

(** The mapping of the example in the docstring of [get_labels]. *)
Definition reference_labels : gmap string string :=
  list_to_map [("001", "0"); ("010", "5"); ("011", "0"); ("100", "3");
               ("101", "2"); ("110", "2"); ("111", "3")].

(** ** Notions used to state the properties *)

(** The character of a membership flag. *)
Definition flag_char (b : bool) : ascii := if b then "1"%char else "0"%char.

(** The [N] low bits of [n] as a string of flags, most significant first. *)
Fixpoint flags (N : nat) (n : Z) : string :=
  match N with
  | O => ""
  | S k => String (flag_char (Z.testbit n (Z.of_nat k))) (flags k n)
  end.

(** A string made of the characters 0 and 1 only. *)
Fixpoint all_flags (s : string) : Prop :=
  match s with
  | EmptyString => True
  | String c s' => (c = "0"%char ∨ c = "1"%char) ∧ all_flags s'
  end.

(** The number a string of flags denotes when read in base 2. *)
Fixpoint binary_value_go (acc : Z) (s : string) : Z :=
  match s with
  | EmptyString => acc
  | String c s' => binary_value_go (2 * acc + (if decide (c = "1"%char) then 1 else 0)) s'
  end.
Definition binary_value (s : string) : Z := binary_value_go 0 s.

(** A combination of [N] flags that are not all 0. *)
Definition nonzero_flags (N : nat) (k : string) : Prop :=
  String.length k = N ∧ all_flags k ∧ k ≠ Py.zeros N.

Global Instance all_flags_dec (s : string) : Decision (all_flags s).
Proof. induction s as [|c s IH]; simpl; apply _. Defined.

Global Instance nonzero_flags_dec (N : nat) (k : string) : Decision (nonzero_flags N k).
Proof. unfold nonzero_flags. apply _. Defined.

(** The three fragments of a label, for a key [k], the cardinality [c] of
    its region set and the cardinality [u] of the universe. *)
Definition logic_fragment (fill : list string) (k : string) : string :=
  if decide ("logic" ∈ fill) then k +:+ ": " else "".

Definition number_fragment (fill : list string) (c : Z) : string :=
  if decide ("number" ∈ fill) then Py.str c else "".

(** [100.0 * c / u] for a divisor that is not zero. *)
Definition percent_value (c u : Z) : spec_float :=
  SFdiv Py.prec Py.emax
        (Py.float_mul (Py.float_of_int 100) (Py.float_of_int c))
        (Py.float_of_int u).

Definition percent_fragment (fill : list string) (c u : Z) : string :=
  if decide ("percent" ∈ fill)
  then "(" +:+ Py.format_f1 (percent_value c u) +:+ "%)"
  else "".

(** A label: the logic prefix, then the number, then the percentage. *)
Definition label_of (fill : list string) (k : string) (c u : Z) : string :=
  (logic_fragment fill k +:+ number_fragment fill c) +:+ percent_fragment fill c u.

(** The keys in the order in which [for n in l] computes them. *)
Fixpoint keys_of_loop (N : nat) (l : list Z) : result (list string) :=
  match l with
  | [] => Ok []
  | n :: l' =>
      key ← region_key N n;
      rest ← keys_of_loop N l';
      Ok (key :: rest)
  end.
Definition generated_keys (N : nat) : result (list string) :=
  keys_of_loop N (Py.range 1 (2 ^ Z.of_nat N)).

(** The percentage of [c] in [u] in tenths, computed on the rationals and
    rounded to the nearest integer, ties to even; and its text. *)
Definition exact_tenths (c u : Z) : Z :=
  let q := (1000 * c) / u in
  let r := (1000 * c) mod u in
  match 2 * r ?= u with
  | Lt => q
  | Gt => q + 1
  | Eq => if Z.even q then q else q + 1
  end.

Definition exact_percent_text (c u : Z) : string :=
  let t := exact_tenths c u in
  "(" +:+ Py.str (t / 10) +:+ "." +:+ Py.str (t mod 10) +:+ "%)".

(** [percent_text] agrees with [exact_percent_text] for every universe of at
    most [bound] elements and every cardinality up to that of the universe. *)
Definition percent_text_exact_upto (bound : Z) : bool :=
  forallb (λ u, forallb (λ c, bool_decide (percent_text c u = Ok (exact_percent_text c u)))
                        (Py.range 0 (u + 1)))
          (Py.range 1 (bound + 1)).

Section Notions.
Context `{Countable A}.

(** One step of a left-to-right pass over group indices: intersect with
    group [i] when its flag is 1, subtract group [i] when its flag is 0. *)
Definition apply_flag (data : list (list A)) (k : string) (value : gset A) (i : nat)
  : gset A :=
  match data !! i with
  | Some g =>
      if decide (String.get i k = Some "1"%char) then value ∩ list_to_set g
      else if decide (String.get i k = Some "0"%char) then value ∖ list_to_set g
      else value
  | None => value
  end.

(** [x] lies in the region of key [k]: it is an element of the universe
    that belongs to every group whose flag is 1 and to no group whose flag
    is 0. *)
Definition in_region (data : list (list A)) (k : string) (x : A) : Prop :=
  x ∈ universe data ∧
  ∀ i g, data !! i = Some g →
         (String.get i k = Some "1"%char → x ∈ g) ∧
         (String.get i k = Some "0"%char → x ∉ g).

(** The flags of the groups that [x] belongs to. *)
Fixpoint member_key (data : list (list A)) (x : A) : string :=
  match data with
  | [] => ""
  | g :: data' => String (flag_char (bool_decide (x ∈ g))) (member_key data' x)
  end.

(** The sum of the cardinalities of the sets stored in a dict. *)
Definition total_size (m : gmap string (gset A)) : nat :=
  sum_list (size <$> (map_to_list m).*2).

(** The sets stored in a dict do not overlap. *)
Definition pairwise_disjoint (m : gmap string (gset A)) : Prop :=
  ∀ k1 k2 v1 v2, k1 ≠ k2 → m !! k1 = Some v1 → m !! k2 = Some v2 → v1 ## v2.

(** The union of the sets stored in a dict. *)
Definition union_of (m : gmap string (gset A)) : gset A :=
  ⋃ (map_to_list m).*2.

End Notions.






Definition texts (calls : list Mpl.call) : list (string * color) :=
  omap (λ c, match c with
             | Mpl.text _ _ _ s _ _ _ col => Some (s, col)
             | _ => None
             end) calls.








(** Two groups of which the first is contained in the second, two groups
    without a common element, and their region sets. *)
Definition nested_sets : gmap string (gset Z) :=
  list_to_map [("01", ∅); ("10", list_to_set [1; 2; 3; 4; 5; 6; 7]); ("11", {[8]})].
Definition inner_data : list (list Z) := [[1; 2]; [1; 2; 3]].
Definition inner_sets : gmap string (gset Z) :=
  list_to_map [("01", {[3]}); ("10", ∅); ("11", list_to_set [1; 2])].
Definition apart_data : list (list Z) := [[1; 2]; [3]].
Definition apart_sets : gmap string (gset Z) :=
  list_to_map [("01", {[3]}); ("10", list_to_set [1; 2]); ("11", ∅)].

(** The key whose flags are all 1. *)
Fixpoint ones (n : nat) : string :=
  match n with
  | O => ""
  | S n' => String "1" (ones n')
  end.

(** The key of [N] flags whose only 1 is at position [i]. *)
Definition only_key (N i : nat) : string :=
  Py.zeros i +:+ String "1" (Py.zeros (N - 1 - i)).

(** The groups, and the flags of a key, taken in the order of the list of
    positions [p]. *)
Definition pick_groups {A : Type} (p : list nat) (data : list (list A)) : list (list A) :=
  omap (λ i, data !! i) p.

Fixpoint pick_flags (p : list nat) (k : string) : string :=
  match p with
  | [] => ""
  | i :: p' =>
      match String.get i k with
      | Some c => String c (pick_flags p' k)
      | None => pick_flags p' k
      end
  end.

(** Two groups with the same elements, whatever their order and
    repetitions. *)
Definition same_elements {A : Type} (g g' : list A) : Prop :=
  ∀ x, x ∈ g ↔ x ∈ g'.

(** A float that is a finite number or an infinity of sign [sx]. *)
Definition finite_or_infinity (sx : bool) (x : spec_float) : Prop :=
  match x with
  | S754_finite s _ _ | S754_infinity s => s = sx
  | _ => False
  end.

(** Decides a closed decidable proposition by evaluation. *)
Ltac by_decide := apply (bool_decide_unpack _); vm_compute; exact I.

(** ** Strings *)

Lemma str_app_nil_l (s : string) : "" +:+ s = s.
Proof. reflexivity. Qed.

Lemma str_app_cons (c : ascii) (s t : string) : String c s +:+ t = String c (s +:+ t).
Proof. reflexivity. Qed.

Lemma str_app_nil_r (s : string) : s +:+ "" = s.
Proof. induction s as [|c s IH]; [done|]. by rewrite str_app_cons, IH. Qed.

Lemma str_app_assoc (s t u : string) : (s +:+ t) +:+ u = s +:+ (t +:+ u).
Proof. induction s as [|c s IH]; [done|]. by rewrite !str_app_cons, IH. Qed.

Lemma rev_app_app (s acc t : string) :
  String.rev_app s acc +:+ t = String.rev_app s (acc +:+ t).
Proof. revert acc. induction s as [|c s IH]; intros acc; [done|]. simpl. by rewrite IH. Qed.

Lemma rev_cons_app (c : ascii) (cur s : string) :
  String.rev (String c cur) +:+ s = String.rev cur +:+ String c s.
Proof. unfold String.rev. simpl. by rewrite !rev_app_app. Qed.

(** ** Flags and bits *)

Lemma flags_length (N : nat) (n : Z) : String.length (flags N n) = N.
Proof. induction N as [|k IH]; [done|]. simpl. by rewrite IH. Qed.

Lemma flag_char_flag (b : bool) : flag_char b = "0"%char ∨ flag_char b = "1"%char.
Proof. destruct b; auto. Qed.

Lemma flags_all_flags (N : nat) (n : Z) : all_flags (flags N n).
Proof. induction N as [|k IH]; simpl; auto using flag_char_flag. Qed.

Lemma flags_get (N : nat) (n : Z) (i : nat) :
  (i < N)%nat →
  String.get i (flags N n) = Some (flag_char (Z.testbit n (Z.of_nat (N - 1 - i)))).
Proof.
  revert i. induction N as [|k IH]; intros i Hi; [lia|].
  destruct i as [|i]; cbn [flags String.get].
  - do 3 f_equal. lia.
  - rewrite IH by lia. do 3 f_equal. lia.
Qed.

Lemma flags_zero (N : nat) : flags N 0 = Py.zeros N.
Proof. induction N as [|k IH]; [done|]. simpl. by rewrite Z.bits_0, IH. Qed.

Lemma flags_snoc (k : nat) (n : Z) (b : bool) :
  flags (S k) (2 * n + Z.b2z b) = flags k n +:+ String (flag_char b) "".
Proof.
  induction k as [|k IH].
  - cbn [flags]. rewrite str_app_nil_l. change (Z.of_nat 0) with 0.
    by rewrite Z.testbit_0_r.
  - change (flags (S (S k)) (2 * n + Z.b2z b))
      with (String (flag_char (Z.testbit (2 * n + Z.b2z b) (Z.of_nat (S k))))
                   (flags (S k) (2 * n + Z.b2z b))).
    rewrite IH. rewrite Nat2Z.inj_succ, Z.testbit_succ_r by lia. done.
Qed.

Lemma flags_small (k m : nat) (n : Z) :
  0 ≤ n < 2 ^ Z.of_nat m → flags (k + m) n = Py.zeros k +:+ flags m n.
Proof.
  intros Hn. induction k as [|k IH]; [done|].
  cbn [Nat.add flags Py.zeros]. rewrite str_app_cons, IH. f_equal.
  rewrite <-(Z.mod_small n (2 ^ Z.of_nat m)) by done.
  rewrite Z.mod_pow2_bits_high by lia. done.
Qed.

Lemma binary_value_go_flags (N : nat) (n acc : Z) :
  binary_value_go acc (flags N n) = acc * 2 ^ Z.of_nat N + n mod 2 ^ Z.of_nat N.
Proof.
  revert acc. induction N as [|k IH]; intros acc.
  - simpl. rewrite Z.mod_1_r. lia.
  - simpl flags. simpl binary_value_go. rewrite IH.
    rewrite Nat2Z.inj_succ, Z.pow_succ_r by lia.
    rewrite (Z.mul_comm 2 (2 ^ Z.of_nat k)).
    rewrite Z.rem_mul_r by lia.
    assert (Hb : (if decide (flag_char (Z.testbit n (Z.of_nat k)) = "1"%char)
                  then 1 else 0) = (n / 2 ^ Z.of_nat k) mod 2).
    { rewrite <-Z.testbit_spec' by lia. by destruct (Z.testbit n (Z.of_nat k)). }
    rewrite Hb. lia.
Qed.

Lemma binary_value_flags (N : nat) (n : Z) :
  binary_value (flags N n) = n mod 2 ^ Z.of_nat N.
Proof. unfold binary_value. rewrite binary_value_go_flags. lia. Qed.

Lemma flags_inj (N : nat) (n m : Z) :
  0 ≤ n < 2 ^ Z.of_nat N → 0 ≤ m < 2 ^ Z.of_nat N →
  flags N n = flags N m → n = m.
Proof.
  intros Hn Hm Heq. apply (f_equal binary_value) in Heq.
  rewrite !binary_value_flags, !Z.mod_small in Heq; done.
Qed.

Lemma binary_value_go_bound (s : string) (acc : Z) :
  ∃ v, 0 ≤ v < 2 ^ Z.of_nat (String.length s) ∧
       binary_value_go acc s = acc * 2 ^ Z.of_nat (String.length s) + v.
Proof.
  revert acc. induction s as [|c s IH]; intros acc.
  - exists 0. simpl. lia.
  - cbn [String.length binary_value_go].
    destruct (IH (2 * acc + (if decide (c = "1"%char) then 1 else 0))) as (v & Hv & ->).
    rewrite Nat2Z.inj_succ, Z.pow_succ_r by lia.
    set (P := 2 ^ Z.of_nat (String.length s)) in *.
    case_decide.
    + exists (P + v). lia.
    + exists v. lia.
Qed.

Lemma flags_binary_value_go (s : string) (acc : Z) :
  all_flags s → flags (String.length s) (binary_value_go acc s) = s.
Proof.
  revert acc. induction s as [|c s IH]; intros acc Hs; [done|].
  destruct Hs as [Hc Hs]. cbn [String.length binary_value_go flags].
  rewrite IH by done. f_equal.
  destruct (binary_value_go_bound s (2 * acc + (if decide (c = "1"%char) then 1 else 0)))
    as (v & Hv & ->).
  set (d := if decide (c = "1"%char) then 1 else 0) in *.
  assert (Hd : Z.testbit (2 * acc + d) 0 = bool_decide (c = "1"%char)).
  { unfold d. case_bool_decide; case_decide; try done.
    - change 1 with (Z.b2z true). apply Z.testbit_0_r.
    - change 0 with (Z.b2z false) at 1. apply Z.testbit_0_r. }
  replace (Z.of_nat (String.length s)) with (0 + Z.of_nat (String.length s)) at 2 by lia.
  rewrite <-Z.div_pow2_bits by lia.
  rewrite Z.div_add_l, Z.div_small, Z.add_0_r, Hd by lia.
  destruct Hc as [-> | ->]; done.
Qed.

Lemma flags_binary_value (s : string) :
  all_flags s → flags (String.length s) (binary_value s) = s.
Proof. apply flags_binary_value_go. Qed.

Lemma binary_value_bound (s : string) :
  0 ≤ binary_value s < 2 ^ Z.of_nat (String.length s).
Proof.
  unfold binary_value. destruct (binary_value_go_bound s 0) as (v & Hv & ->). lia.
Qed.

(** The keys that the numbers of [range(1, 2**N)] denote are the non-zero
    combinations of [N] flags. *)
Lemma elem_of_flags_range (N : nat) (k : string) :
  k ∈ flags N <$> Py.range 1 (2 ^ Z.of_nat N) ↔ nonzero_flags N k.
Proof.
  unfold Py.range, nonzero_flags. rewrite list_elem_of_fmap. split.
  - intros (n & -> & Hn%elem_of_seqZ).
    split; [apply flags_length|]. split; [apply flags_all_flags|].
    rewrite <-flags_zero. intros Heq%flags_inj; lia.
  - intros (Hlen & Hall & Hnz). exists (binary_value k).
    pose proof (binary_value_bound k) as Hb. rewrite Hlen in Hb.
    split; [by rewrite <-Hlen, flags_binary_value|].
    apply elem_of_seqZ.
    destruct (decide (binary_value k = 0)) as [H0|]; [|lia].
    exfalso. apply Hnz. rewrite <-flags_zero, <-H0, <-Hlen.
    by rewrite flags_binary_value.
Qed.

Lemma NoDup_flags_range (N : nat) : NoDup (flags N <$> Py.range 1 (2 ^ Z.of_nat N)).
Proof.
  apply NoDup_fmap_2_strong; [|apply NoDup_seqZ].
  intros n m Hn%elem_of_seqZ Hm%elem_of_seqZ. apply flags_inj; lia.
Qed.

Lemma length_flags_range (N : nat) :
  Z.of_nat (length (flags N <$> Py.range 1 (2 ^ Z.of_nat N))) = 2 ^ Z.of_nat N - 1.
Proof.
  unfold Py.range. rewrite length_fmap, length_seqZ.
  assert (0 < 2 ^ Z.of_nat N) by (apply Z.pow_pos_nonneg; lia). lia.
Qed.

(** ** The key of a loop variable *)

Lemma size_nat_bound (p : positive) : Z.pos p < 2 ^ Z.of_nat (Pos.size_nat p).
Proof.
  induction p as [p IH|p IH|]; cbn [Pos.size_nat];
    rewrite ?Nat2Z.inj_succ, ?Z.pow_succ_r by lia; lia.
Qed.

Lemma size_nat_le (p : positive) (N : nat) :
  Z.pos p < 2 ^ Z.of_nat N → (Pos.size_nat p ≤ N)%nat.
Proof.
  revert N. induction p as [p IH|p IH|]; intros N Hp; cbn [Pos.size_nat].
  - destruct N as [|N]; [simpl in Hp; lia|].
    rewrite Nat2Z.inj_succ, Z.pow_succ_r in Hp by lia.
    apply le_n_S, IH. lia.
  - destruct N as [|N]; [simpl in Hp; lia|].
    rewrite Nat2Z.inj_succ, Z.pow_succ_r in Hp by lia.
    apply le_n_S, IH. lia.
  - destruct N as [|N]; [simpl in Hp; lia|]. lia.
Qed.

Lemma bin_digits_flags (p : positive) (acc : string) :
  Py.bin_digits p acc = flags (Pos.size_nat p) (Z.pos p) +:+ acc.
Proof.
  revert acc. induction p as [p IH|p IH|]; intros acc; cbn [Py.bin_digits Pos.size_nat].
  - rewrite IH. change (Z.pos p~1) with (2 * Z.pos p + Z.b2z true).
    by rewrite flags_snoc, str_app_assoc.
  - rewrite IH. change (Z.pos p~0) with (2 * Z.pos p + Z.b2z false).
    by rewrite flags_snoc, str_app_assoc.
  - done.
Qed.

Lemma prefix_app (s t : string) : String.prefix s (s +:+ t) = true.
Proof.
  induction s as [|c s IH]; [by destruct t|].
  rewrite str_app_cons. cbn [String.prefix]. by destruct (ascii_dec c c).
Qed.

Lemma split_go_flags (cur s : string) :
  all_flags s → Py.split_go "0b" 0 cur s = [String.rev cur +:+ s].
Proof.
  revert cur. induction s as [|c s IH]; intros cur Hs.
  - by rewrite str_app_nil_r.
  - destruct Hs as [Hc Hs]. cbn [Py.split_go].
    assert (Hp : String.prefix "0b" (String c s) = false).
    { destruct Hc as [-> | ->]; [|done].
      destruct s as [|d s]; [done|]. destruct Hs as [[-> | ->] _]; done. }
    rewrite Hp, IH by done. by rewrite rev_cons_app.
Qed.

Lemma split_bin (p : positive) :
  Py.split (Py.bin (Z.pos p)) "0b" = [""; Py.bin_digits p ""].
Proof.
  unfold Py.split, Py.bin.
  pose proof (prefix_app "0b" (Py.bin_digits p "")) as Hp.
  rewrite !str_app_cons, str_app_nil_l in *.
  cbn [Py.split_go]. rewrite Hp. cbn [String.length Nat.pred Py.split_go].
  rewrite split_go_flags; [reflexivity|].
  rewrite bin_digits_flags, str_app_nil_r. apply flags_all_flags.
Qed.

Lemma zfill_flags (s : string) (width : nat) :
  all_flags s → Py.zfill s width = Py.zeros (width - String.length s) +:+ s.
Proof.
  intros Hs. unfold Py.zfill. destruct s as [|c s]; [done|].
  destruct Hs as [[-> | ->] _]; done.
Qed.

(** For the numbers the loop visits, the key is the string of the [N] flags
    of [n]. *)
Lemma region_key_flags (N : nat) (n : Z) :
  1 ≤ n < 2 ^ Z.of_nat N → region_key N n = Ok (flags N n).
Proof.
  intros Hn. destruct n as [|p|p]; [lia| |lia].
  unfold region_key. rewrite split_bin. cbn. f_equal.
  rewrite bin_digits_flags, str_app_nil_r.
  rewrite zfill_flags by apply flags_all_flags.
  rewrite flags_length.
  pose proof (size_nat_le p N ltac:(lia)) as Hle.
  rewrite <-flags_small by (pose proof (size_nat_bound p); lia).
  f_equal. lia.
Qed.

(** ** Indexing *)

Lemma str_getitem_lt (s : string) (i : nat) :
  (i < String.length s)%nat → ∃ c, String.get i s = Some c.
Proof.
  revert i. induction s as [|c s IH]; intros i Hi; [simpl in Hi; lia|].
  destruct i as [|i]; [by exists c|]. apply IH. simpl in Hi. lia.
Qed.

Lemma str_get_lt (s : string) (i : nat) (c : ascii) :
  String.get i s = Some c → (i < String.length s)%nat.
Proof.
  revert i. induction s as [|d s IH]; intros i Hi; [by destruct i|].
  destruct i as [|i]; simpl in *; [lia|]. apply IH in Hi. lia.
Qed.

Lemma all_flags_get (s : string) (i : nat) (c : ascii) :
  all_flags s → String.get i s = Some c → c = "0"%char ∨ c = "1"%char.
Proof.
  revert i. induction s as [|d s IH]; intros i Hs Hi; [by destruct i|].
  destruct Hs as [Hd Hs]. destruct i as [|i]; simpl in Hi.
  - by simplify_eq.
  - by eapply IH.
Qed.

(** Two different strings of the same length differ at some position. *)
Lemma str_differ (s t : string) :
  String.length s = String.length t → s ≠ t →
  ∃ i c d, String.get i s = Some c ∧ String.get i t = Some d ∧ c ≠ d.
Proof.
  revert t. induction s as [|c s IH]; intros [|d t] Hlen Hne; try done.
  destruct (decide (c = d)) as [->|Hcd].
  - destruct (IH t) as (i & c' & d' & ? & ? & ?); [by simplify_eq/=|congruence|].
    by exists (S i), c', d'.
  - by exists O, c, d.
Qed.

Lemma zeros_get (n i : nat) (c : ascii) :
  String.get i (Py.zeros n) = Some c → c = "0"%char.
Proof.
  revert i. induction n as [|n IH]; intros i Hi; [by destruct i|].
  destruct i as [|i]; simpl in Hi; [by simplify_eq|by eapply IH].
Qed.

(** ** The region set of a key *)

Section RegionValue.
Context `{Countable A}.
Implicit Types (data : list (list A)) (sets_data : list (gset A)).
Implicit Types (key k : string) (x : A).

Lemma make_sets_seq (pre data : list (list A)) :
  make_sets (pre ++ data) (seq (length pre) (length data)) = Ok (list_to_set <$> data).
Proof.
  revert pre. induction data as [|d data IH]; intros pre; [done|].
  cbn [length seq make_sets]. unfold Py.list_getitem.
  rewrite list_lookup_middle by done. cbn.
  specialize (IH (pre ++ [d])). rewrite <-(assoc_L (++)), length_app in IH.
  cbn in IH. rewrite Nat.add_1_r in IH. by rewrite IH.
Qed.

Lemma make_sets_range data :
  make_sets data (seq 0 (length data)) = Ok (list_to_set <$> data).
Proof. apply (make_sets_seq []). Qed.

Lemma select_sets_spec sets_data key (flag : ascii) (idx : list nat) :
  (∀ i, i ∈ idx → (i < String.length key)%nat ∧ (i < length sets_data)%nat) →
  ∃ l, select_sets sets_data key flag idx = Ok l ∧
       ∀ s, s ∈ l ↔ ∃ i, i ∈ idx ∧ String.get i key = Some flag ∧ sets_data !! i = Some s.
Proof.
  induction idx as [|i idx IH]; intros Hidx.
  - exists []. split; [done|]. intros s. split; [by intros ?%elem_of_nil|].
    by intros (i & ?%elem_of_nil & _).
  - destruct IH as (l & Hl & Hspec).
    { intros j Hj. apply Hidx. by right. }
    destruct (Hidx i) as [Hik His]; [by left|].
    destruct (str_getitem_lt key i Hik) as [c Hc].
    destruct (lookup_lt_is_Some_2 sets_data i His) as [s0 Hs0].
    cbn [select_sets]. unfold Py.str_getitem, Py.list_getitem.
    rewrite Hc. cbn. case_decide as Hflag.
    + subst c. rewrite Hs0, Hl. cbn. eexists; split; [done|].
      intros s. rewrite elem_of_cons, Hspec. split.
      * intros [-> | (j & ? & ? & ?)]; [exists i|exists j]; by rewrite elem_of_cons; auto.
      * intros (j & [-> | ?]%elem_of_cons & ? & ?); [left; congruence|right; eauto].
    + rewrite Hl. eexists; split; [done|].
      intros s. rewrite Hspec. split.
      * intros (j & ? & ? & ?). exists j. by rewrite elem_of_cons; auto.
      * intros (j & [-> | ?]%elem_of_cons & ? & ?); [congruence|eauto].
Qed.

Lemma elem_of_foldl_intersection (l : list (gset A)) (v : gset A) x :
  x ∈ foldl (λ value s, value ∩ s) v l ↔ x ∈ v ∧ ∀ s, s ∈ l → x ∈ s.
Proof.
  revert v. induction l as [|s l IH]; intros v; cbn [foldl].
  - split; [|tauto]. intros ?; split; [done|]. by intros ? ?%elem_of_nil.
  - rewrite IH, elem_of_intersection. split.
    + intros [[Hv Hs] Hl]. split; [done|]. intros s' [-> | Hs']%elem_of_cons; auto.
    + intros [Hv Hl]. split; [split; [done|]|].
      * apply Hl. by left.
      * intros s' Hs'. apply Hl. by right.
Qed.

Lemma elem_of_foldl_difference (l : list (gset A)) (v : gset A) x :
  x ∈ foldl (λ value s, value ∖ s) v l ↔ x ∈ v ∧ ∀ s, s ∈ l → x ∉ s.
Proof.
  revert v. induction l as [|s l IH]; intros v; cbn [foldl].
  - split; [|tauto]. intros ?; split; [done|]. by intros ? ?%elem_of_nil.
  - rewrite IH, elem_of_difference. split.
    + intros [[Hv Hs] Hl]. split; [done|]. intros s' [-> | Hs']%elem_of_cons; auto.
    + intros [Hv Hl]. split; [split; [done|]|].
      * apply Hl. by left.
      * intros s' Hs'. apply Hl. by right.
Qed.

Lemma region_value_spec (N : nat) (s_all : gset A) sets_data key :
  String.length key = N → length sets_data = N →
  ∃ v, region_value N s_all sets_data key = Ok v ∧
       ∀ x, x ∈ v ↔
            x ∈ s_all ∧
            ∀ i s, sets_data !! i = Some s →
                   (String.get i key = Some "1"%char → x ∈ s) ∧
                   (String.get i key = Some "0"%char → x ∉ s).
Proof.
  intros Hk Hs. unfold region_value.
  assert (Hidx : ∀ i, i ∈ seq 0 N →
                      (i < String.length key)%nat ∧ (i < length sets_data)%nat).
  { intros i Hi%elem_of_seq. lia. }
  destruct (select_sets_spec sets_data key "1" (seq 0 N) Hidx) as (l1 & -> & H1).
  destruct (select_sets_spec sets_data key "0" (seq 0 N) Hidx) as (l0 & -> & H0).
  cbn. eexists; split; [done|]. intros x.
  rewrite elem_of_foldl_difference, elem_of_foldl_intersection.
  setoid_rewrite H1. setoid_rewrite H0. split.
  - intros [[Hx Hin] Hout]. split; [done|]. intros i s Hi. split; intros Hc.
    + apply Hin. exists i. split; [|done]. apply elem_of_seq.
      apply lookup_lt_Some in Hi. lia.
    + apply Hout. exists i. split; [|done]. apply elem_of_seq.
      apply lookup_lt_Some in Hi. lia.
  - intros [Hx Hall]. split; [split; [done|]|].
    + intros s (i & _ & Hc & Hi). by apply (Hall i s Hi).
    + intros s (i & _ & Hc & Hi). by apply (Hall i s Hi).
Qed.

End RegionValue.

(** ** The loop over the region keys *)

Section RegionSets.
Context `{Countable A}.
Implicit Types (data : list (list A)) (sets_data : list (gset A)).
Implicit Types (key k : string) (x : A).

Lemma region_step_flags (N : nat) (s_all : gset A) sets_data
    (m0 : gmap string (gset A)) (n : Z) (v : gset A) :
  1 ≤ n < 2 ^ Z.of_nat N →
  region_value N s_all sets_data (flags N n) = Ok v →
  region_step N s_all sets_data m0 n = Ok (<[flags N n := v]> m0).
Proof.
  intros Hn Hv. unfold region_step. rewrite region_key_flags by done. cbn.
  by rewrite Hv.
Qed.

Lemma region_loop (N : nat) (s_all : gset A) sets_data (l : list Z)
    (m0 : gmap string (gset A)) :
  length sets_data = N →
  (∀ n, n ∈ l → 1 ≤ n < 2 ^ Z.of_nat N) →
  ∃ m, for_each (region_step N s_all sets_data) m0 l = Ok m ∧
       ∀ k, m !! k =
            if decide (k ∈ flags N <$> l)
            then match region_value N s_all sets_data k with
                 | Ok v => Some v
                 | Raise _ => None
                 end
            else m0 !! k.
Proof.
  intros Hs. revert m0. induction l as [|n l IH]; intros m0 Hl.
  - exists m0. split; [done|]. intros k. by rewrite decide_False by apply not_elem_of_nil.
  - destruct (region_value_spec N s_all sets_data (flags N n)) as (v & Hv & _);
      [apply flags_length|done|].
    cbn [for_each].
    rewrite (region_step_flags N s_all sets_data m0 n v) by (apply Hl || done; by left).
    cbn [mbind result_bind].
    destruct (IH (<[flags N n := v]> m0)) as (m & Hm & Hlook).
    { intros n' Hn'. apply Hl. by right. }
    exists m. split; [done|]. intros k. rewrite Hlook, fmap_cons.
    destruct (decide (k ∈ flags N <$> l)) as [Hin|Hnin].
    + by rewrite decide_True by (by right).
    + destruct (decide (k = flags N n)) as [->|Hne].
      * rewrite decide_True by (by left). by rewrite lookup_insert_eq, Hv.
      * rewrite lookup_insert_ne by done.
        rewrite decide_False; [done|]. by intros [?|?]%elem_of_cons.
Qed.

(** The dict [set_collections]: its keys are the non-zero combinations of
    [N] flags, and the set stored at a key holds the elements in the region
    of the key. *)
Lemma region_sets_spec data :
  ∃ sc, region_sets data = Ok sc ∧
        (∀ k, is_Some (sc !! k) ↔ nonzero_flags (length data) k) ∧
        (∀ k v, sc !! k = Some v → ∀ x, x ∈ v ↔ in_region data k x).
Proof.
  unfold region_sets. rewrite make_sets_range. cbn.
  set (N := length data). set (sets_data := list_to_set <$> data).
  assert (Hlen : length sets_data = N) by apply length_fmap.
  destruct (region_loop N (universe data) sets_data (Py.range 1 (2 ^ Z.of_nat N)) ∅ Hlen)
    as (sc & Hsc & Hlook).
  { intros n Hn%elem_of_seqZ. lia. }
  exists sc. split; [done|].
  assert (Hval : ∀ k, nonzero_flags N k →
            ∃ v, region_value N (universe data) sets_data k = Ok v ∧
                 ∀ x, x ∈ v ↔ in_region data k x).
  { intros k (Hk & _ & _).
    destruct (region_value_spec N (universe data) sets_data k Hk Hlen) as (v & Hv & Hx).
    exists v. split; [done|]. intros x. rewrite Hx. unfold in_region.
    apply and_iff_compat_l. split.
    - intros Hall i g Hg. rewrite <-(elem_of_list_to_set (C := gset A)).
      apply Hall. unfold sets_data. by rewrite list_lookup_fmap, Hg.
    - intros Hall i s Hs. unfold sets_data in Hs.
      rewrite list_lookup_fmap in Hs.
      destruct (data !! i) as [g|] eqn:Hg; [|done]. simplify_eq/=.
      rewrite elem_of_list_to_set. by apply Hall. }
  split.
  - intros k. rewrite Hlook, lookup_empty. case_decide as Hk.
    + apply elem_of_flags_range in Hk. destruct (Hval k Hk) as (v & -> & _).
      split; [done|]. by eexists.
    + rewrite elem_of_flags_range in Hk. split; [by intros [? ?]|done].
  - intros k v. rewrite Hlook, lookup_empty. case_decide as Hk; [|done].
    apply elem_of_flags_range in Hk. destruct (Hval k Hk) as (v' & -> & Hx).
    by intros [= <-].
Qed.

End RegionSets.

(** ** Dicts of disjoint sets *)

Section Partition.
Context `{Countable A}.
Implicit Types (data : list (list A)) (m : gmap string (gset A)).
Implicit Types (k : string) (x : A).

Lemma elem_of_union_of m x :
  x ∈ union_of m ↔ ∃ k v, m !! k = Some v ∧ x ∈ v.
Proof.
  unfold union_of. rewrite elem_of_union_list. split.
  - intros (v & Hv & Hx). apply list_elem_of_fmap in Hv as ([k v'] & -> & Hkv).
    apply elem_of_map_to_list in Hkv. by exists k, v'.
  - intros (k & v & Hkv & Hx). exists v. split; [|done].
    apply list_elem_of_fmap. exists (k, v). split; [done|].
    by apply elem_of_map_to_list.
Qed.

Lemma total_size_disjoint m :
  pairwise_disjoint m → size (union_of m) = total_size m.
Proof.
  unfold union_of, total_size.
  induction m as [|k v m Hk IH] using map_ind; intros Hdisj.
  - by rewrite map_to_list_empty.
  - rewrite map_to_list_insert by done. cbn [fmap list_fmap snd].
    change (sum_list (size v :: (size <$> (map_to_list m).*2)))
      with (size v + sum_list (size <$> (map_to_list m).*2))%nat.
    rewrite union_list_cons, size_union.
    + f_equal. apply IH. intros k1 k2 v1 v2 Hne H1 H2.
      apply (Hdisj k1 k2); [done| |].
      * rewrite lookup_insert_ne; [done|]. intros ->. by rewrite Hk in H1.
      * rewrite lookup_insert_ne; [done|]. intros ->. by rewrite Hk in H2.
    + intros x Hx (k' & v' & Hkv' & Hx')%elem_of_union_of.
      assert (k ≠ k') as Hne by (intros ->; by rewrite Hk in Hkv').
      eapply (Hdisj k k' v v' Hne); [by rewrite lookup_insert_eq| |done|done].
      by rewrite lookup_insert_ne.
Qed.

Lemma member_key_length data x : String.length (member_key data x) = length data.
Proof. induction data as [|g data IH]; [done|]. simpl. by rewrite IH. Qed.

Lemma member_key_all_flags data x : all_flags (member_key data x).
Proof. induction data as [|g data IH]; simpl; auto using flag_char_flag. Qed.

Lemma member_key_get data x (i : nat) (g : list A) :
  data !! i = Some g →
  String.get i (member_key data x) = Some (flag_char (bool_decide (x ∈ g))).
Proof.
  revert i. induction data as [|g' data IH]; intros i Hi; [done|].
  destruct i as [|i]; simpl in *; [by simplify_eq|by apply IH].
Qed.

Lemma elem_of_universe data x :
  x ∈ universe data ↔ ∃ i g, data !! i = Some g ∧ x ∈ g.
Proof.
  unfold universe. rewrite elem_of_list_to_set, list_elem_of_In, in_concat. split.
  - intros (g & (i & Hi)%list_elem_of_In%list_elem_of_lookup & Hx%list_elem_of_In).
    by exists i, g.
  - intros (i & g & Hi & Hx). exists g. split; [|by apply list_elem_of_In].
    apply list_elem_of_In, list_elem_of_lookup. by exists i.
Qed.

Lemma member_key_nonzero data x :
  x ∈ universe data → nonzero_flags (length data) (member_key data x).
Proof.
  intros (i & g & Hi & Hx)%elem_of_universe.
  split; [apply member_key_length|]. split; [apply member_key_all_flags|].
  intros Heq. pose proof (member_key_get data x i g Hi) as Hget.
  rewrite Heq, bool_decide_eq_true_2 in Hget by done.
  by apply zeros_get in Hget.
Qed.

Lemma member_key_in_region data x :
  x ∈ universe data → in_region data (member_key data x) x.
Proof.
  intros Hx. split; [done|]. intros i g Hi.
  rewrite (member_key_get data x i g Hi).
  case_bool_decide; split; intros [=]; done.
Qed.

(** Two different combinations of flags have no element in common. *)
Lemma in_region_disjoint data k1 k2 x :
  nonzero_flags (length data) k1 → nonzero_flags (length data) k2 → k1 ≠ k2 →
  in_region data k1 x → in_region data k2 x → False.
Proof.
  intros (Hl1 & Hf1 & _) (Hl2 & Hf2 & _) Hne [_ H1] [_ H2].
  destruct (str_differ k1 k2) as (i & c & d & Hc & Hd & Hcd); [congruence|done|].
  pose proof (str_get_lt _ _ _ Hc) as Hi. rewrite Hl1 in Hi.
  destruct (lookup_lt_is_Some_2 data i Hi) as [g Hg].
  destruct (H1 i g Hg) as [H11 H10], (H2 i g Hg) as [H21 H20].
  destruct (all_flags_get _ _ _ Hf1 Hc) as [-> | ->],
           (all_flags_get _ _ _ Hf2 Hd) as [-> | ->]; try done.
  - by apply H10, H21.
  - by apply H20, H11.
Qed.

End Partition.

(** ** Floats: the conversion of a positive [int] is not zero *)

Lemma digits2_pos_bound (p : positive) :
  2 ^ (Z.pos (digits2_pos p) - 1) ≤ Z.pos p < 2 ^ Z.pos (digits2_pos p).
Proof.
  induction p as [p IH|p IH|]; cbn [digits2_pos]; [| |simpl; lia].
  - rewrite Pos2Z.inj_succ.
    replace (Z.succ (Z.pos (digits2_pos p)) - 1) with (Z.succ (Z.pos (digits2_pos p) - 1)) by lia.
    rewrite !Z.pow_succ_r by lia. lia.
  - rewrite Pos2Z.inj_succ.
    replace (Z.succ (Z.pos (digits2_pos p)) - 1) with (Z.succ (Z.pos (digits2_pos p) - 1)) by lia.
    rewrite !Z.pow_succ_r by lia. lia.
Qed.

Lemma shr_1_m (mrs : shr_record) :
  0 ≤ shr_m mrs → shr_m (shr_1 mrs) = shr_m mrs / 2.
Proof.
  destruct mrs as [m r s]. cbn [shr_m]. intros Hm.
  destruct m as [|[p|p|]|p]; cbn [shr_1 shr_m]; [done| | |done|lia].
  - rewrite Pos2Z.inj_xI. apply Z.div_unique with 1; lia.
  - rewrite Pos2Z.inj_xO. apply Z.div_unique with 0; lia.
Qed.

Lemma shr_m_iter (p : positive) (mrs : shr_record) :
  0 ≤ shr_m mrs → shr_m (SpecFloat.iter_pos shr_1 p mrs) = shr_m mrs / 2 ^ Z.pos p.
Proof.
  revert mrs. induction p as [p IH|p IH|]; intros mrs Hm; cbn [SpecFloat.iter_pos].
  - assert (0 ≤ shr_m (shr_1 mrs)) by (rewrite shr_1_m by done; by apply Z.div_pos).
    assert (0 < 2 ^ Z.pos p) by (by apply Z.pow_pos_nonneg).
    rewrite IH, IH, shr_1_m by (rewrite ?IH by done; try apply Z.div_pos; lia).
    rewrite !Z.div_div by lia. f_equal.
    replace (Z.pos p~1) with (1 + Z.pos p + Z.pos p) by lia.
    rewrite !Z.pow_add_r by lia. change (2 ^ 1) with 2. ring.
  - assert (0 < 2 ^ Z.pos p) by (by apply Z.pow_pos_nonneg).
    rewrite IH, IH by (rewrite ?IH by done; try apply Z.div_pos; lia).
    rewrite !Z.div_div by lia. f_equal.
    replace (Z.pos p~0) with (Z.pos p + Z.pos p) by lia.
    rewrite !Z.pow_add_r by lia. ring.
  - by apply shr_1_m.
Qed.

Lemma shr_fexp_pos (m e : Z) (l : location) :
  0 < m → emin Py.prec Py.emax ≤ e →
  0 < shr_m (shr_fexp Py.prec Py.emax m e l).1 ∧ e ≤ (shr_fexp Py.prec Py.emax m e l).2.
Proof.
  intros Hm He. destruct m as [|p|p]; [lia| |lia].
  unfold shr_fexp, shr. cbn [Zdigits2].
  pose proof (digits2_pos_bound p) as Hd.
  set (d := Z.pos (digits2_pos p)) in *. assert (1 ≤ d) by (unfold d; lia).
  assert (Hm0 : shr_m (shr_record_of_loc (Z.pos p) l) = Z.pos p)
    by (by destruct l as [|[]]).
  unfold fexp, emin, Py.prec, Py.emax in *.
  destruct (Z.max (d + e - 53) (3 - 1024 - 53) - e) as [|n|n] eqn:Hn; cbn [fst snd];
    rewrite ?Hm0; try lia.
  rewrite shr_m_iter, Hm0 by lia. split; [|lia].
  apply Z.div_str_pos. split; [by apply Z.pow_pos_nonneg|].
  etrans; [|apply Hd]. apply Z.pow_le_mono_r; lia.
Qed.

Lemma round_nearest_even_pos (m : Z) (l : location) :
  0 < m → 0 < round_nearest_even m l.
Proof. intros Hm. destruct l as [|[]]; cbn; try case_match; lia. Qed.

Lemma binary_round_aux_shape (sx : bool) (mx ex : Z) (lx : location) :
  0 < mx → emin Py.prec Py.emax ≤ ex →
  finite_or_infinity sx (binary_round_aux Py.prec Py.emax sx mx ex lx).
Proof.
  intros Hm He. unfold binary_round_aux.
  destruct (shr_fexp_pos mx ex lx Hm He) as [Hm1 He1].
  destruct (shr_fexp Py.prec Py.emax mx ex lx) as [mrs1 e1]. cbn [fst snd] in *.
  pose proof (round_nearest_even_pos _ (loc_of_shr_record mrs1) Hm1) as Hm2.
  destruct (shr_fexp_pos _ e1 loc_Exact Hm2 ltac:(lia)) as [Hm3 _].
  destruct (shr_fexp Py.prec Py.emax _ e1 loc_Exact) as [mrs2 e2]. cbn [fst snd] in *.
  destruct (shr_m mrs2); [lia| |lia]. by case_match.
Qed.

Lemma float_of_int_shape (n : Z) :
  n ≠ 0 → finite_or_infinity (n <? 0) (Py.float_of_int n).
Proof.
  intros Hn. unfold Py.float_of_int, binary_normalize.
  assert (Hr : ∀ sx p, finite_or_infinity sx (binary_round Py.prec Py.emax sx p 0)).
  { intros sx p. unfold binary_round, shl_align.
    destruct (fexp Py.prec Py.emax (Z.pos (digits2_pos p) + 0) - 0) eqn:Hf;
      apply binary_round_aux_shape; try done.
    unfold fexp, emin, Py.prec, Py.emax in *. lia. }
  destruct n; [done|apply Hr|apply Hr].
Qed.

Lemma float_of_int_nonzero (n : Z) (s : bool) :
  n ≠ 0 → Py.float_of_int n ≠ S754_zero s.
Proof.
  intros Hn%float_of_int_shape Heq. by rewrite Heq in Hn.
Qed.

Lemma float_of_int_zero : Py.float_of_int 0 = S754_zero false.
Proof. reflexivity. Qed.

(** ** Floats: printing with one decimal *)

(** [round_tenths m e] is an integer nearest to [10 * m * 2^e]. *)
Lemma round_tenths_nearest (m p : positive) :
  let den := 2 ^ Z.pos p in
  let t := Py.round_tenths m (Z.neg p) in
  - den ≤ 2 * (t * den - Z.pos m * 10) ≤ den.
Proof.
  intros den t. subst t. unfold Py.round_tenths.
  change (Z.pow_pos 2 p) with den.
  assert (Hden : 0 < den) by (by apply Z.pow_pos_nonneg).
  pose proof (Z.div_mod (Z.pos m * 10) den ltac:(lia)) as Hdiv.
  pose proof (Z.mod_pos_bound (Z.pos m * 10) den Hden) as Hmod.
  set (q := (Z.pos m * 10) `div` den) in *.
  set (r := (Z.pos m * 10) `mod` den) in *.
  destruct (Z.compare_spec (2 * r) den); try case_match; nia.
Qed.

Lemma round_tenths_exact (m : positive) (e : Z) :
  0 ≤ e → Py.round_tenths m e = Z.pos m * 2 ^ e * 10.
Proof. intros He. by destruct e. Qed.

Lemma str_digit (d : Z) : 0 ≤ d < 10 → ∃ c, Py.str d = String c "".
Proof.
  intros Hd.
  assert (d = 0 ∨ d = 1 ∨ d = 2 ∨ d = 3 ∨ d = 4 ∨ d = 5 ∨ d = 6 ∨ d = 7 ∨ d = 8 ∨ d = 9)
    as Hcases by lia.
  repeat (destruct Hcases as [-> | Hcases]; [by eexists|]).
  subst d; by eexists.
Qed.

(** A finite float is printed with exactly one digit after the point. *)
Lemma format_f1_finite (s : bool) (m : positive) (e : Z) :
  ∃ c, Py.format_f1 (S754_finite s m e) =
       (if s then "-" else "") +:+ Py.str (Py.round_tenths m e / 10) +:+ "." +:+ String c "".
Proof.
  destruct (str_digit (Py.round_tenths m e `mod` 10)) as [c Hc];
    [by apply Z.mod_pos_bound|].
  exists c. unfold Py.format_f1. by rewrite Hc.
Qed.

(** An empty region of a universe that is not empty is 0.0 percent. *)
Lemma percent_value_zero (u : Z) :
  0 < u → Py.format_f1 (percent_value 0 u) = "0.0".
Proof.
  intros Hu. unfold percent_value.
  pose proof (float_of_int_shape u ltac:(lia)) as Hshape.
  replace (u <? 0) with false in Hshape by (symmetry; apply Z.ltb_ge; lia).
  change (Py.float_mul (Py.float_of_int 100) (Py.float_of_int 0)) with (S754_zero false).
  by destruct (Py.float_of_int u) as [| [] | | [] ? ?].
Qed.

(** ** The passes over the labels *)

Lemma percent_text_zero (c : Z) : percent_text c 0 = Raise ZeroDivisionError.
Proof. reflexivity. Qed.

Lemma percent_text_nonzero (c u : Z) :
  u ≠ 0 →
  percent_text c u = Ok ("(" +:+ Py.format_f1 (percent_value c u) +:+ "%)").
Proof.
  intros Hu. unfold percent_text, Py.float_truediv, percent_value.
  pose proof (float_of_int_nonzero u true Hu).
  pose proof (float_of_int_nonzero u false Hu).
  by destruct (Py.float_of_int u) as [[]| | |].
Qed.

(** A pass that replaces the label of every visited key [k] by [upd k old]. *)
Lemma update_loop (body : gmap string string → string → result (gmap string string))
    (upd : string → string → string) (ks : list string) (labels : gmap string string) :
  NoDup ks →
  (∀ k, k ∈ ks → is_Some (labels !! k)) →
  (∀ lab k old, k ∈ ks → lab !! k = Some old → body lab k = Ok (<[k := upd k old]> lab)) →
  ∃ labels', for_each body labels ks = Ok labels' ∧
             ∀ k, labels' !! k =
                  if decide (k ∈ ks) then upd k <$> labels !! k else labels !! k.
Proof.
  intros Hnd. revert labels.
  induction Hnd as [|k ks Hk Hnd IH]; intros labels Hdom Hbody.
  - exists labels. split; [done|]. intros k.
    by rewrite decide_False by apply not_elem_of_nil.
  - destruct (Hdom k) as [old Hold]; [by left|].
    cbn [for_each]. rewrite (Hbody labels k old) by (done || by left).
    cbn [mbind result_bind].
    destruct (IH (<[k := upd k old]> labels)) as (labels' & Hrun & Hlook).
    { intros j Hj. destruct (decide (j = k)) as [->|Hne].
      - rewrite lookup_insert_eq. by eexists.
      - rewrite lookup_insert_ne by done. apply Hdom. by right. }
    { intros lab j o Hj. apply Hbody. by right. }
    exists labels'. split; [done|]. intros j. rewrite Hlook.
    destruct (decide (j = k)) as [->|Hne].
    + rewrite decide_False by done. rewrite decide_True by (by left).
      by rewrite lookup_insert_eq, Hold.
    + rewrite lookup_insert_ne by done.
      destruct (decide (j ∈ ks)) as [Hj|Hj].
      * by rewrite decide_True by (by right).
      * rewrite decide_False; [done|]. by intros [?|?]%elem_of_cons.
Qed.

(** Such a pass gives the same labels in whatever order it visits the keys. *)
Lemma update_loop_order (body : gmap string string → string → result (gmap string string))
    (upd : string → string → string) (ks ks' : list string) (labels : gmap string string) :
  NoDup ks → ks ≡ₚ ks' →
  (∀ k, k ∈ ks → is_Some (labels !! k)) →
  (∀ lab k old, k ∈ ks → lab !! k = Some old → body lab k = Ok (<[k := upd k old]> lab)) →
  for_each body labels ks = for_each body labels ks'.
Proof.
  intros Hnd Hperm Hdom Hbody.
  destruct (update_loop body upd ks labels Hnd Hdom Hbody) as (l1 & -> & H1).
  destruct (update_loop body upd ks' labels) as (l2 & -> & H2).
  - by rewrite <-Hperm.
  - intros k Hk. apply Hdom. by rewrite Hperm.
  - intros lab k old Hk. apply Hbody. by rewrite Hperm.
  - f_equal. apply map_eq. intros k. rewrite H1, H2.
    apply decide_ext. by rewrite Hperm.
Qed.

Lemma elem_of_dict_keys {V : Type} (d : gmap string V) (k : string) :
  k ∈ Py.dict_keys d ↔ is_Some (d !! k).
Proof.
  unfold Py.dict_keys. rewrite list_elem_of_fmap. split.
  - intros ([k' v] & -> & Hkv%elem_of_map_to_list). by exists v.
  - intros [v Hv]. exists (k, v). split; [done|]. by apply elem_of_map_to_list.
Qed.

Lemma NoDup_dict_keys {V : Type} (d : gmap string V) : NoDup (Py.dict_keys d).
Proof. apply NoDup_fst_map_to_list. Qed.

Section Labels.
Context `{Countable A}.
Implicit Types (data : list (list A)) (sc : gmap string (gset A)).
Implicit Types (fill : list string) (labels : gmap string string).

(** A pass that appends [piece k v] to the label of every key. *)
Lemma append_pass sc (body : gmap string string → string → result (gmap string string))
    (piece : string → gset A → string) (f : string → gset A → string) labels :
  (∀ k, labels !! k = f k <$> sc !! k) →
  (∀ lab k old v, lab !! k = Some old → sc !! k = Some v →
                  body lab k = Ok (<[k := old +:+ piece k v]> lab)) →
  ∃ labels', for_each body labels (Py.dict_keys sc) = Ok labels' ∧
             ∀ k, labels' !! k = (λ v, f k v +:+ piece k v) <$> sc !! k.
Proof.
  intros Hlabels Hbody.
  destruct (update_loop body
              (λ k old, old +:+ match sc !! k with Some v => piece k v | None => "" end)
              (Py.dict_keys sc) labels) as (labels' & Hrun & Hlook).
  - apply NoDup_dict_keys.
  - intros k [v Hv]%elem_of_dict_keys. rewrite Hlabels, Hv. by eexists.
  - intros lab k old [v Hv]%elem_of_dict_keys Hold. rewrite Hv. by apply Hbody.
  - exists labels'. split; [done|]. intros k. rewrite Hlook, Hlabels.
    case_decide as Hk.
    + apply elem_of_dict_keys in Hk as [v Hv]. by rewrite Hv.
    + rewrite elem_of_dict_keys, <-eq_None_not_Some in Hk. by rewrite Hk.
Qed.

Lemma logic_pass sc fill :
  ∃ labels,
    (if decide ("logic" ∈ fill)
     then for_each logic_step ((λ _, "") <$> sc) (Py.dict_keys sc)
     else Ok ((λ _, "") <$> sc)) = Ok labels ∧
    ∀ k, labels !! k = (λ _, logic_fragment fill k) <$> sc !! k.
Proof.
  unfold logic_fragment. case_decide.
  - destruct (update_loop logic_step (λ k _, k +:+ ": ") (Py.dict_keys sc)
                ((λ _, "") <$> sc)) as (labels & Hrun & Hlook).
    + apply NoDup_dict_keys.
    + intros k [v Hv]%elem_of_dict_keys. rewrite lookup_fmap, Hv. by eexists.
    + done.
    + exists labels. split; [done|]. intros k. rewrite Hlook, lookup_fmap.
      case_decide as Hk.
      * apply elem_of_dict_keys in Hk as [v Hv]. by rewrite Hv.
      * rewrite elem_of_dict_keys, <-eq_None_not_Some in Hk. by rewrite Hk.
  - eexists. split; [done|]. intros k. by rewrite lookup_fmap.
Qed.

Lemma number_pass sc fill (f : string → gset A → string) labels :
  (∀ k, labels !! k = f k <$> sc !! k) →
  ∃ labels',
    (if decide ("number" ∈ fill)
     then for_each (number_step sc) labels (Py.dict_keys sc)
     else Ok labels) = Ok labels' ∧
    ∀ k, labels' !! k = (λ v, f k v +:+ number_fragment fill (Py.len v)) <$> sc !! k.
Proof.
  intros Hlabels. unfold number_fragment. case_decide.
  - apply append_pass with (piece := λ _ v, Py.str (Py.len v)); [done|].
    intros lab k old v Hold Hv. unfold number_step, Py.dict_getitem.
    by rewrite Hold, Hv.
  - exists labels. split; [done|]. intros k. rewrite Hlabels.
    destruct (sc !! k); [|done]. cbn. by rewrite str_app_nil_r.
Qed.

Lemma percent_pass sc fill (u : Z) (f : string → gset A → string) labels :
  (∀ k, labels !! k = f k <$> sc !! k) →
  ("percent" ∈ fill → u ≠ 0 ∨ sc = ∅) →
  ∃ labels',
    (if decide ("percent" ∈ fill)
     then for_each (percent_step sc u) labels (Py.dict_keys sc)
     else Ok labels) = Ok labels' ∧
    ∀ k, labels' !! k = (λ v, f k v +:+ percent_fragment fill (Py.len v) u) <$> sc !! k.
Proof.
  intros Hlabels Hu. unfold percent_fragment. case_decide as Hp.
  - destruct (Hu Hp) as [Hu0 | ->].
    + apply append_pass
        with (piece := λ _ v, "(" +:+ Py.format_f1 (percent_value (Py.len v) u) +:+ "%)");
        [done|].
      intros lab k old v Hold Hv. unfold percent_step, Py.dict_getitem.
      rewrite Hold, Hv. cbn. by rewrite percent_text_nonzero by auto.
    + exists labels. split; [done|]. intros k. by rewrite Hlabels, lookup_empty.
  - exists labels. split; [done|]. intros k. rewrite Hlabels.
    destruct (sc !! k); [|done]. cbn. by rewrite str_app_nil_r.
Qed.

(** With an empty universe the percent pass raises at the first key. *)
Lemma percent_pass_zero sc labels (f : string → gset A → string) :
  (∀ k, labels !! k = f k <$> sc !! k) →
  sc ≠ ∅ →
  for_each (percent_step sc 0) labels (Py.dict_keys sc) = Raise ZeroDivisionError.
Proof.
  intros Hlabels Hne.
  destruct (Py.dict_keys sc) as [|k ks] eqn:Hks.
  - exfalso. apply Hne. apply map_to_list_empty_iff.
    unfold Py.dict_keys in Hks. by apply fmap_nil_inv in Hks.
  - assert (Hk : k ∈ Py.dict_keys sc) by (rewrite Hks; by left).
    apply elem_of_dict_keys in Hk as [v Hv].
    assert (percent_step sc 0 labels k = Raise ZeroDivisionError) as Hstep.
    { unfold percent_step, Py.dict_getitem. by rewrite Hlabels, Hv. }
    cbn [for_each]. by rewrite Hstep.
Qed.

(** What [get_labels] returns: it raises exactly when a percentage is asked
    for, there is at least one group and the universe is empty; otherwise
    every key of [set_collections] gets its label. *)
Lemma get_labels_spec data fill :
  ∃ sc, region_sets data = Ok sc ∧
        if decide ("percent" ∈ fill ∧ data ≠ [] ∧ universe data = ∅)
        then get_labels data fill = Raise ZeroDivisionError
        else ∃ labels,
            get_labels data fill = Ok labels ∧
            ∀ k, labels !! k =
                 (λ v, label_of fill k (Py.len v) (Py.len (universe data))) <$> sc !! k.
Proof.
  destruct (region_sets_spec data) as (sc & Hsc & Hkeys & Hval).
  exists sc. split; [done|]. unfold get_labels. rewrite Hsc.
  cbn [mbind result_bind].
  destruct (logic_pass sc fill) as (l1 & -> & H1). cbn [mbind result_bind].
  destruct (number_pass sc fill _ l1 H1) as (l2 & -> & H2). cbn [mbind result_bind].
  case_decide as Hcase.
  - destruct Hcase as (Hp & Hdata & Hu).
    rewrite decide_True by done. rewrite Hu.
    change (Py.len (∅ : gset A)) with 0.
    erewrite percent_pass_zero; [done|apply H2|].
    intros ->. destruct data as [|g data]; [done|].
    assert (Hk : nonzero_flags (length (g :: data)) (flags (length (g :: data)) 1)).
    { apply elem_of_flags_range, list_elem_of_fmap. exists 1. split; [done|].
      apply elem_of_seqZ. cbn [length]. rewrite Nat2Z.inj_succ, Z.pow_succ_r by lia.
      assert (0 < 2 ^ Z.of_nat (length data)) by (apply Z.pow_pos_nonneg; lia). lia. }
    apply Hkeys in Hk as [v Hv]. by rewrite lookup_empty in Hv.
  - destruct (percent_pass sc fill (Py.len (universe data)) _ l2 H2) as (l3 & -> & H3).
    { intros Hp. destruct (decide (Py.len (universe data) = 0)) as [Hu|Hu]; [|by left].
      right. assert (universe data = ∅) as Hempty.
      { apply leibniz_equiv, size_empty_inv. unfold Py.len in Hu. lia. }
      assert (data = []) as -> by (destruct data; [done|]; exfalso; by apply Hcase).
      apply map_eq. intros k. rewrite lookup_empty. apply eq_None_not_Some.
      rewrite Hkeys. intros (Hlen & _ & Hnz). apply Hnz.
      destruct k; [done|discriminate Hlen]. }
    cbn [mbind result_bind]. exists l3. split; [done|].
    intros k. by rewrite H3.
Qed.

End Labels.

(** ** Properties of the region sets *)

Section RegionProperties.
Context `{Countable A}.
Implicit Types (data : list (list A)) (sc : gmap string (gset A)).
Implicit Types (fill : list string) (labels : gmap string string).
Implicit Types (k : string) (x : A).

Lemma size_keys (V : Type) (m : gmap string V) (N : nat) :
  (∀ k, is_Some (m !! k) ↔ nonzero_flags N k) →
  Z.of_nat (size m) = 2 ^ Z.of_nat N - 1.
Proof.
  intros Hkeys. rewrite <-length_flags_range, <-size_dom.
  rewrite <-(size_list_to_set (C := gset string)) by apply NoDup_flags_range.
  do 2 f_equal. apply set_eq. intros k.
  by rewrite elem_of_dom, elem_of_list_to_set, elem_of_flags_range.
Qed.

Lemma elem_of_foldl_apply_flag data k (order : list nat) (value : gset A) x :
  x ∈ foldl (apply_flag data k) value order ↔
  x ∈ value ∧
  ∀ i g, i ∈ order → data !! i = Some g →
         (String.get i k = Some "1"%char → x ∈ g) ∧
         (String.get i k = Some "0"%char → x ∉ g).
Proof.
  revert value. induction order as [|i order IH]; intros value; cbn [foldl].
  - split; [|tauto]. intros ?. split; [done|]. by intros ? ? ?%elem_of_nil.
  - rewrite IH. unfold apply_flag.
    assert (Hstep : x ∈ match data !! i with
                        | Some g =>
                            if decide (String.get i k = Some "1"%char)
                            then value ∩ list_to_set g
                            else if decide (String.get i k = Some "0"%char)
                                 then value ∖ list_to_set g else value
                        | None => value
                        end ↔
                    x ∈ value ∧ ∀ g, data !! i = Some g →
                         (String.get i k = Some "1"%char → x ∈ g) ∧
                         (String.get i k = Some "0"%char → x ∉ g)).
    { destruct (data !! i) as [g|];
        [|split; [intros ?; split; [done|]; by intros ? [=]|tauto]].
      repeat case_decide.
      - rewrite elem_of_intersection, elem_of_list_to_set. split.
        + intros [? ?]. split; [done|]. intros ? [= <-]. split; [done|congruence].
        + intros [? Hg]. split; [done|]. by apply (Hg g).
      - rewrite elem_of_difference, elem_of_list_to_set. split.
        + intros [? ?]. split; [done|]. intros ? [= <-]. split; [congruence|done].
        + intros [? Hg]. split; [done|]. by apply (Hg g).
      - split; [|tauto]. intros ?. split; [done|]. intros ? [= <-]. done. }
    rewrite Hstep. split.
    + intros [[Hv Hi] Hrest]. split; [done|].
      intros j g [-> | Hj]%elem_of_cons Hg; [by apply Hi|by apply Hrest].
    + intros [Hv Hall]. split; [split; [done|]|].
      * intros g Hg. apply Hall; [by left|done].
      * intros j g Hj Hg. apply Hall; [by right|done].
Qed.

(** C1 (partition). For every sequence [data] of collections, the dict
    [set_collections] built by [get_labels] has [2^N - 1] keys; the sets it
    stores at different keys are disjoint, their union is the universe (the
    union of all the collections), and the sum of their cardinalities is the
    cardinality of the universe. *)
Theorem region_sets_partition data :
  ∃ sc, region_sets data = Ok sc ∧
        Z.of_nat (size sc) = 2 ^ Z.of_nat (length data) - 1 ∧
        pairwise_disjoint sc ∧
        union_of sc = universe data ∧
        total_size sc = size (universe data).
Proof.
  destruct (region_sets_spec data) as (sc & Hsc & Hkeys & Hval).
  exists sc. split; [done|]. split; [by apply size_keys|].
  assert (Hdisj : pairwise_disjoint sc).
  { intros k1 k2 v1 v2 Hne H1 H2 x Hx1 Hx2.
    apply (in_region_disjoint data k1 k2 x).
    - apply Hkeys. by eexists.
    - apply Hkeys. by eexists.
    - done.
    - by apply (Hval k1 v1).
    - by apply (Hval k2 v2). }
  assert (Hunion : union_of sc = universe data).
  { apply set_eq. intros x. rewrite elem_of_union_of. split.
    - intros (k & v & Hkv & Hx). by apply (Hval k v Hkv x) in Hx as [? _].
    - intros Hx. destruct (proj2 (Hkeys (member_key data x))) as [v Hv];
        [by apply member_key_nonzero|].
      exists (member_key data x), v. split; [done|].
      apply (Hval _ _ Hv). by apply member_key_in_region. }
  split; [done|]. split; [done|].
  by rewrite <-Hunion, total_size_disjoint.
Qed.

(** C2 (region-set correctness). The set stored at a key [k] holds exactly
    the elements of the universe that belong to every group whose flag in
    [k] is 1 and to no group whose flag in [k] is 0. It is also what one
    gets from the universe by visiting the groups in any order, intersecting
    with a group whose flag is 1 and subtracting a group whose flag is 0. *)
Theorem region_set_correct data :
  ∃ sc, region_sets data = Ok sc ∧
        ∀ k v, sc !! k = Some v →
               (∀ x, x ∈ v ↔ in_region data k x) ∧
               (∀ order, order ≡ₚ seq 0 (length data) →
                         foldl (apply_flag data k) (universe data) order = v).
Proof.
  destruct (region_sets_spec data) as (sc & Hsc & Hkeys & Hval).
  exists sc. split; [done|]. intros k v Hkv. split; [by apply Hval|].
  intros order Hperm. apply set_eq. intros x.
  rewrite elem_of_foldl_apply_flag, (Hval k v Hkv). unfold in_region.
  apply and_iff_compat_l. split.
  - intros Hall i g Hg. apply Hall; [|done].
    rewrite Hperm. apply elem_of_seq. apply lookup_lt_Some in Hg. lia.
  - intros Hall i g _ Hg. by apply Hall.
Qed.

End RegionProperties.

(** ** Properties of the returned mapping *)

Section LabelProperties.
Context `{Countable A}.
Implicit Types (data : list (list A)) (sc : gmap string (gset A)).
Implicit Types (fill : list string) (labels : gmap string string).
Implicit Types (k : string) (x : A).

(** A returned mapping has the keys of [set_collections], each with the
    label assembled for it. *)
Lemma get_labels_Ok_inv data fill labels :
  get_labels data fill = Ok labels →
  ∃ sc, region_sets data = Ok sc ∧
        (∀ k, is_Some (sc !! k) ↔ nonzero_flags (length data) k) ∧
        (∀ k v, sc !! k = Some v → ∀ x, x ∈ v ↔ in_region data k x) ∧
        ∀ k, labels !! k =
             (λ v, label_of fill k (Py.len v) (Py.len (universe data))) <$> sc !! k.
Proof.
  intros Hrun.
  destruct (region_sets_spec data) as (sc & Hsc & Hkeys & Hval).
  destruct (get_labels_spec data fill) as (sc' & Hsc' & Hspec).
  assert (sc' = sc) as -> by congruence.
  exists sc. do 3 (split; [done|]).
  case_decide; [congruence|].
  destruct Hspec as (labels' & Hrun' & Hlook).
  by assert (labels' = labels) as -> by congruence.
Qed.

Lemma get_labels_keys data fill labels :
  get_labels data fill = Ok labels →
  ∀ k, is_Some (labels !! k) ↔ nonzero_flags (length data) k.
Proof.
  intros (sc & _ & Hkeys & _ & Hlook)%get_labels_Ok_inv k.
  by rewrite Hlook, fmap_is_Some.
Qed.

(** [get_labels] returns a mapping unless a percentage is asked for, there
    is a group and the universe is empty. *)
Lemma get_labels_returns data fill :
  ¬ ("percent" ∈ fill ∧ data ≠ [] ∧ universe data = ∅) →
  ∃ labels, get_labels data fill = Ok labels.
Proof.
  intros Hcase. destruct (get_labels_spec data fill) as (sc & _ & Hspec).
  rewrite decide_False in Hspec by done.
  destruct Hspec as (labels & Hrun & _). by exists labels.
Qed.

(** C3 (cardinality). Whatever the options, a mapping returned by
    [get_labels] for [N] collections has exactly [2^N - 1] keys, and they
    are the combinations of [N] flags that are not all 0. *)
Theorem get_labels_cardinality data fill labels :
  get_labels data fill = Ok labels →
  Z.of_nat (size labels) = 2 ^ Z.of_nat (length data) - 1 ∧
  ∀ k, k ∈ dom labels ↔ nonzero_flags (length data) k.
Proof.
  intros Hrun. pose proof (get_labels_keys data fill labels Hrun) as Hkeys.
  split; [by apply size_keys|].
  intros k. by rewrite elem_of_dom.
Qed.

(** The keys in the order of the loop are the flags of 1, 2, ... *)
Lemma keys_of_loop_flags (N : nat) (l : list Z) :
  (∀ n, n ∈ l → 1 ≤ n < 2 ^ Z.of_nat N) →
  keys_of_loop N l = Ok (flags N <$> l).
Proof.
  induction l as [|n l IH]; intros Hl; [done|].
  cbn [keys_of_loop]. rewrite region_key_flags by (apply Hl; by left).
  cbn. rewrite IH; [done|]. intros n' Hn'. apply Hl. by right.
Qed.

Lemma generated_keys_flags (N : nat) :
  generated_keys N = Ok (flags N <$> Py.range 1 (2 ^ Z.of_nat N)).
Proof.
  apply keys_of_loop_flags. intros n Hn%elem_of_seqZ. lia.
Qed.

Lemma binary_value_flags_range (N : nat) :
  binary_value <$> (flags N <$> Py.range 1 (2 ^ Z.of_nat N)) = Py.range 1 (2 ^ Z.of_nat N).
Proof.
  rewrite <-list_fmap_compose.
  transitivity (id <$> Py.range 1 (2 ^ Z.of_nat N)); [|apply list_fmap_id].
  apply Forall_fmap_ext, Forall_forall. intros n Hn%elem_of_seqZ. cbn.
  rewrite binary_value_flags, Z.mod_small; [done|lia].
Qed.

(** C4 (key format and bit convention). For [N] collections, every key of
    a returned mapping is a string of exactly [N] characters, each 0 or 1,
    and is not the all-0 string. The loop generates the keys in ascending
    order of the numbers they denote in binary (1, 2, ..., [2^N - 1]).
    Position 0 of a key is the most significant bit, and the character at
    position [i] says whether the elements of the region belong to
    group [i]. *)
Theorem key_format data fill labels :
  get_labels data fill = Ok labels →
  (∀ k, k ∈ dom labels →
        String.length k = length data ∧ all_flags k ∧ k ≠ Py.zeros (length data)) ∧
  (∃ keys, generated_keys (length data) = Ok keys ∧
           (∀ k, k ∈ keys ↔ k ∈ dom labels) ∧
           binary_value <$> keys = Py.range 1 (2 ^ Z.of_nat (length data)) ∧
           ∀ i j a b, (i < j)%nat → keys !! i = Some a → keys !! j = Some b →
                      binary_value a < binary_value b) ∧
  (∀ n i, 1 ≤ n < 2 ^ Z.of_nat (length data) → (i < length data)%nat →
          ∃ key, region_key (length data) n = Ok key ∧
                 String.get i key =
                 Some (flag_char (Z.testbit n (Z.of_nat (length data - 1 - i))))) ∧
  (∃ sc, region_sets data = Ok sc ∧
         ∀ k v x i g, sc !! k = Some v → x ∈ v → data !! i = Some g →
                      (String.get i k = Some "1"%char ↔ x ∈ g)).
Proof.
  intros Hrun. set (N := length data).
  pose proof (get_labels_keys data fill labels Hrun) as Hkeys. fold N in Hkeys.
  split; [|split; [|split]].
  - intros k Hk%elem_of_dom. by apply Hkeys.
  - exists (flags N <$> Py.range 1 (2 ^ Z.of_nat N)).
    split; [apply generated_keys_flags|]. split; [|split].
    + intros k. by rewrite elem_of_flags_range, elem_of_dom, Hkeys.
    + apply binary_value_flags_range.
    + intros i j a b Hij Ha Hb.
      apply (f_equal (fmap binary_value)) in Ha, Hb.
      rewrite <-list_lookup_fmap, binary_value_flags_range in Ha, Hb.
      cbn in Ha, Hb. apply lookup_seqZ in Ha as [Ha _], Hb as [Hb _]. lia.
  - intros n i Hn Hi. exists (flags N n).
    split; [by apply region_key_flags|by apply flags_get].
  - destruct (get_labels_Ok_inv data fill labels Hrun) as (sc & Hsc & Hk & Hval & _).
    exists sc. split; [done|]. intros k v x i g Hkv Hx Hg.
    apply (Hval k v Hkv) in Hx as [_ Hx]. destruct (Hx i g Hg) as [H1 H0].
    split; [done|]. intros Hxg.
    destruct (proj1 (Hk k) ltac:(by eexists)) as (Hlen & Hall & _).
    destruct (str_getitem_lt k i) as [c Hc].
    { rewrite Hlen. by apply lookup_lt_Some in Hg. }
    destruct (all_flags_get k i c Hall Hc) as [-> | ->]; [|done].
    by destruct (H0 Hc).
Qed.

(** C5, as amended. When a percentage is asked for, there is at least one
    group and the universe is empty, the call raises [ZeroDivisionError]
    and no mapping is returned. *)
Theorem percent_empty_universe_raises data fill :
  data ≠ [] → "percent" ∈ fill → universe data = ∅ →
  get_labels data fill = Raise ZeroDivisionError.
Proof.
  intros Hdata Hp Hu. destruct (get_labels_spec data fill) as (sc & _ & Hspec).
  by rewrite decide_True in Hspec.
Qed.

(** C6 (no groups). With an empty sequence of groups [get_labels] returns
    the empty mapping, whatever the options. *)
Theorem get_labels_no_groups fill :
  get_labels (@nil (list A)) fill = Ok ∅.
Proof.
  destruct (get_labels_spec (@nil (list A)) fill) as (sc & _ & Hspec).
  rewrite decide_False in Hspec by (by intros (_ & ? & _)).
  destruct Hspec as (labels & Hrun & _). rewrite Hrun. f_equal.
  apply map_eq. intros k. rewrite lookup_empty. apply eq_None_not_Some.
  rewrite (get_labels_keys (@nil (list A)) fill labels Hrun).
  intros (Hlen & _ & Hnz). apply Hnz. destruct k; [done|discriminate Hlen].
Qed.

(** C7 (label assembly). The label of a key is the concatenation, in this
    order, of the logic prefix (the key followed by a colon and a space), of
    the cardinality of the region set in decimal, and of the percentage in
    parentheses, each present only when its option is given. With none of
    the three options every label is the empty string. *)
Theorem label_assembly data fill labels :
  get_labels data fill = Ok labels →
  ∃ sc, region_sets data = Ok sc ∧
        (∀ k, labels !! k =
              (λ v, ((if decide ("logic" ∈ fill) then k +:+ ": " else "") +:+
                     (if decide ("number" ∈ fill) then Py.str (Py.len v) else "")) +:+
                    (if decide ("percent" ∈ fill)
                     then "(" +:+
                          Py.format_f1 (percent_value (Py.len v) (Py.len (universe data)))
                          +:+ "%)"
                     else "")) <$> sc !! k) ∧
        ("logic" ∉ fill → "number" ∉ fill → "percent" ∉ fill →
         ∀ k label, labels !! k = Some label → label = "").
Proof.
  intros (sc & Hsc & _ & _ & Hlook)%get_labels_Ok_inv.
  exists sc. split; [done|]. split; [done|].
  intros Hl Hn Hp k label. rewrite Hlook.
  unfold label_of, logic_fragment, number_fragment, percent_fragment.
  destruct (sc !! k); [|done]. cbn. intros [= <-].
  by repeat case_decide.
Qed.

(** C9 (options noninterference). Two option lists that agree on the three
    recognised options give the same result, a mapping or an exception, on
    every input: other entries change nothing. *)
Theorem options_noninterference data fill1 fill2 :
  ("logic" ∈ fill1 ↔ "logic" ∈ fill2) →
  ("number" ∈ fill1 ↔ "number" ∈ fill2) →
  ("percent" ∈ fill1 ↔ "percent" ∈ fill2) →
  get_labels data fill1 = get_labels data fill2.
Proof.
  intros Hl Hn Hp. unfold get_labels.
  destruct (region_sets data) as [sc|e]; [|done]. cbn [mbind result_bind].
  rewrite (decide_ext _ _ _ _ Hl).
  destruct (if decide ("logic" ∈ fill2) then _ else _) as [l1|e]; [|done].
  cbn [mbind result_bind]. rewrite (decide_ext _ _ _ _ Hn).
  destruct (if decide ("number" ∈ fill2) then _ else _) as [l2|e]; [|done].
  cbn [mbind result_bind]. by rewrite (decide_ext _ _ _ _ Hp).
Qed.

(** C10 (default options). A call without [fill] is the call with
    [["number"]]: it returns a mapping in which the label of every key is
    the cardinality of its region set in decimal. *)
Theorem default_options data :
  call_get_labels data None = call_get_labels data (Some ["number"]) ∧
  ∃ sc labels, region_sets data = Ok sc ∧
               call_get_labels data None = Ok labels ∧
               ∀ k, labels !! k = (λ v, Py.str (Py.len v)) <$> sc !! k.
Proof.
  split; [done|]. unfold call_get_labels. cbn [default default_fill].
  destruct (get_labels_returns data ["number"]) as [labels Hrun].
  { intros (Hp & _). by apply list_elem_of_singleton in Hp. }
  destruct (get_labels_Ok_inv data ["number"] labels Hrun) as (sc & Hsc & _ & _ & Hlook).
  exists sc, labels. do 2 (split; [done|]). intros k. rewrite Hlook.
  destruct (sc !! k); [|done]. cbn. f_equal.
  unfold label_of, logic_fragment, number_fragment, percent_fragment.
  rewrite decide_False, decide_True, decide_False;
    rewrite ?list_elem_of_singleton; try done.
  by rewrite str_app_nil_l, str_app_nil_r.
Qed.

End LabelProperties.

(** ** The example of the docstring and other runs *)

(** C8 (reference scenario). On the groups [range(0,10)], [range(5,15)]
    and [range(3,8)] with the option [number], [get_labels] returns the
    mapping of the docstring: 001 to 0, 010 to 5, 011 to 0, 100 to 3,
    101 to 2, 110 to 2 and 111 to 3. *)
Theorem reference_run :
  reference_data = [Py.range 0 10; Py.range 5 15; Py.range 3 8] ∧
  get_labels reference_data ["number"] =
  Ok (list_to_map [("001", "0"); ("010", "5"); ("011", "0"); ("100", "3");
                   ("101", "2"); ("110", "2"); ("111", "3")]).
Proof. split; [reflexivity|]. vm_compute. reflexivity. Qed.

Example run_one_group :
  get_labels [[1; 2; 3]] ["number"] = Ok {[ "1" := "3" ]}.
Proof. vm_compute. reflexivity. Qed.

Example run_percent :
  get_labels [[1; 2]; [2; 3]] ["percent"] =
  Ok (list_to_map [("01", "(33.3%)"); ("10", "(33.3%)"); ("11", "(33.3%)")]).
Proof. vm_compute. reflexivity. Qed.

Example run_all_options :
  get_labels nested_data ["percent"; "number"; "logic"] = Ok nested_labels.
Proof. vm_compute. reflexivity. Qed.

Example run_duplicates :
  get_labels [[1; 1; 2]; [2; 2]] ["number"] =
  Ok (list_to_map [("01", "0"); ("10", "1"); ("11", "1")]).
Proof. vm_compute. reflexivity. Qed.

Example percent_fragment_eighth : percent_fragment ["percent"] 1 8 = "(12.5%)".
Proof. vm_compute. reflexivity. Qed.

Example bin_5 : Py.bin 5 = "0b101".
Proof. reflexivity. Qed.

Example split_bin_5 : Py.split (Py.bin 5) "0b" = [""; "101"].
Proof. reflexivity. Qed.

Example split_inner : Py.split "a0bb0b0b" "0b" = ["a"; "b"; ""; ""].
Proof. reflexivity. Qed.

Example zfill_5 : Py.zfill "101" 6 = "000101".
Proof. reflexivity. Qed.

Example zfill_sign : Py.zfill "-101" 6 = "-00101".
Proof. reflexivity. Qed.

Example format_sixteenth : Py.format_f1 (percent_value 1 16) = "6.2".
Proof. vm_compute. reflexivity. Qed.

Example format_two_thousandth : Py.format_f1 (percent_value 1 2000) = "0.1".
Proof. vm_compute. reflexivity. Qed.

(** For universes of up to 200 elements the percentage text is the exact
    percentage rounded to one decimal place, ties to even. *)
Lemma percent_text_exact_small : percent_text_exact_upto 200 = true.
Proof. vm_cast_no_check (eq_refl true). Qed.

(** C5, as stated, fails without groups: a percentage is asked for and the
    universe is empty, but a mapping is returned. *)
Lemma percent_empty_universe_no_groups :
  "percent" ∈ ["percent"] ∧
  universe (@nil (list Z)) = ∅ ∧
  get_labels (@nil (list Z)) ["percent"] = Ok ∅ ∧
  ¬ ∃ e, get_labels (@nil (list Z)) ["percent"] = Raise e.
Proof.
  assert (Hrun : get_labels (@nil (list Z)) ["percent"] = Ok ∅)
    by (vm_compute; reflexivity).
  split; [by left|]. split; [reflexivity|]. split; [done|].
  intros [e He]. by rewrite Hrun in He.
Qed.

(** ** The properties at concrete inputs *)

Lemma get_labels_cardinality_witness :
  get_labels reference_data ["number"] = Ok reference_labels ∧
  Z.of_nat (size reference_labels) = 2 ^ Z.of_nat (length reference_data) - 1 ∧
  ∀ k, k ∈ dom reference_labels ↔ nonzero_flags (length reference_data) k.
Proof.
  split; [vm_compute; reflexivity|].
  apply (get_labels_cardinality reference_data ["number"]).
  vm_compute; reflexivity.
Defined.

Lemma percent_empty_universe_raises_witness :
  ([[]; []] : list (list Z)) ≠ [] ∧ "percent" ∈ ["percent"] ∧
  universe ([[]; []] : list (list Z)) = ∅ ∧
  get_labels ([[]; []] : list (list Z)) ["percent"] = Raise ZeroDivisionError.
Proof.
  split; [discriminate|]. split; [by left|]. split; [reflexivity|].
  apply (percent_empty_universe_raises ([[]; []] : list (list Z)) ["percent"]).
  - discriminate.
  - by left.
  - reflexivity.
Defined.

Lemma options_noninterference_witness :
  ("logic" ∈ ["number"; "bold"] ↔ "logic" ∈ ["number"]) ∧
  ("number" ∈ ["number"; "bold"] ↔ "number" ∈ ["number"]) ∧
  ("percent" ∈ ["number"; "bold"] ↔ "percent" ∈ ["number"]) ∧
  get_labels reference_data ["number"; "bold"] = get_labels reference_data ["number"].
Proof.
  assert (Hl : "logic" ∈ ["number"; "bold"] ↔ "logic" ∈ ["number"]) by by_decide.
  assert (Hn : "number" ∈ ["number"; "bold"] ↔ "number" ∈ ["number"]) by by_decide.
  assert (Hp : "percent" ∈ ["number"; "bold"] ↔ "percent" ∈ ["number"]) by by_decide.
  do 3 (split; [done|]).
  exact (options_noninterference reference_data _ _ Hl Hn Hp).
Defined.

Lemma key_format_witness :
  get_labels reference_data ["number"] = Ok reference_labels ∧
  (∀ k, k ∈ dom reference_labels →
        String.length k = length reference_data ∧ all_flags k ∧
        k ≠ Py.zeros (length reference_data)) ∧
  (∃ keys, generated_keys (length reference_data) = Ok keys ∧
           (∀ k, k ∈ keys ↔ k ∈ dom reference_labels) ∧
           binary_value <$> keys = Py.range 1 (2 ^ Z.of_nat (length reference_data)) ∧
           ∀ i j a b, (i < j)%nat → keys !! i = Some a → keys !! j = Some b →
                      binary_value a < binary_value b) ∧
  (∀ n i, 1 ≤ n < 2 ^ Z.of_nat (length reference_data) →
          (i < length reference_data)%nat →
          ∃ key, region_key (length reference_data) n = Ok key ∧
                 String.get i key =
                 Some (flag_char (Z.testbit n (Z.of_nat (length reference_data - 1 - i))))) ∧
  (∃ sc, region_sets reference_data = Ok sc ∧
         ∀ k v x i g, sc !! k = Some v → x ∈ v → reference_data !! i = Some g →
                      (String.get i k = Some "1"%char ↔ x ∈ g)).
Proof.
  split; [vm_compute; reflexivity|].
  apply (key_format reference_data ["number"] reference_labels).
  vm_compute; reflexivity.
Defined.

Lemma label_assembly_witness :
  get_labels nested_data ["logic"; "number"; "percent"] = Ok nested_labels ∧
  ∃ sc, region_sets nested_data = Ok sc ∧
        (∀ k, nested_labels !! k =
              (λ v, ((if decide ("logic" ∈ ["logic"; "number"; "percent"])
                      then k +:+ ": " else "") +:+
                     (if decide ("number" ∈ ["logic"; "number"; "percent"])
                      then Py.str (Py.len v) else "")) +:+
                    (if decide ("percent" ∈ ["logic"; "number"; "percent"])
                     then "(" +:+
                          Py.format_f1
                            (percent_value (Py.len v) (Py.len (universe nested_data)))
                          +:+ "%)"
                     else "")) <$> sc !! k) ∧
        ("logic" ∉ ["logic"; "number"; "percent"] →
         "number" ∉ ["logic"; "number"; "percent"] →
         "percent" ∉ ["logic"; "number"; "percent"] →
         ∀ k label, nested_labels !! k = Some label → label = "").
Proof.
  split; [vm_compute; reflexivity|].
  apply (label_assembly nested_data ["logic"; "number"; "percent"] nested_labels).
  vm_compute; reflexivity.
Defined.

(** ** Further properties of [get_labels] *)

Lemma str_get_app (s t : string) (j : nat) :
  String.get j (s +:+ t) =
  if decide (j < String.length s)%nat then String.get j s
  else String.get (j - String.length s) t.
Proof.
  revert j. induction s as [|c s IH]; intros j.
  - rewrite str_app_nil_l. cbn [String.length]. rewrite decide_False by lia.
    by rewrite Nat.sub_0_r.
  - rewrite str_app_cons. destruct j as [|j]; cbn [String.get String.length].
    + by rewrite decide_True by lia.
    + rewrite IH. repeat case_decide; try lia; done.
Qed.

Lemma zeros_get_lt (n j : nat) :
  (j < n)%nat → String.get j (Py.zeros n) = Some "0"%char.
Proof.
  revert j. induction n as [|n IH]; intros j Hj; [lia|].
  destruct j as [|j]; [done|]. cbn. apply IH. lia.
Qed.

Lemma zeros_length (n : nat) : String.length (Py.zeros n) = n.
Proof. induction n as [|n IH]; [done|]. simpl. by rewrite IH. Qed.

Lemma str_app_length (s t : string) :
  String.length (s +:+ t) = (String.length s + String.length t)%nat.
Proof.
  induction s as [|c s IH]; [done|]. rewrite str_app_cons. simpl. by rewrite IH.
Qed.

Lemma all_flags_intro (s : string) :
  (∀ j c, String.get j s = Some c → c = "0"%char ∨ c = "1"%char) → all_flags s.
Proof.
  induction s as [|c s IH]; intros Hs; [done|]. split.
  - by apply (Hs O).
  - apply IH. intros j d Hd. by apply (Hs (S j)).
Qed.

Lemma ones_length (n : nat) : String.length (ones n) = n.
Proof. induction n as [|n IH]; [done|]. simpl. by rewrite IH. Qed.

Lemma ones_get (n j : nat) (c : ascii) :
  String.get j (ones n) = Some c → c = "1"%char.
Proof.
  revert j. induction n as [|n IH]; intros j Hj; [by destruct j|].
  destruct j as [|j]; simpl in Hj; [by simplify_eq|by eapply IH].
Qed.

Lemma ones_nonzero (n : nat) : n ≠ O → nonzero_flags n (ones n).
Proof.
  intros Hn. split; [apply ones_length|]. split.
  - apply all_flags_intro. intros j c Hc. right. by eapply ones_get.
  - destruct n as [|n]; [done|]. discriminate.
Qed.

Lemma only_key_length (N i : nat) :
  (i < N)%nat → String.length (only_key N i) = N.
Proof.
  intros Hi. unfold only_key. rewrite str_app_length. cbn [String.length].
  rewrite !zeros_length. lia.
Qed.

Lemma only_key_get (N i j : nat) :
  (i < N)%nat → (j < N)%nat →
  String.get j (only_key N i) = Some (if decide (j = i) then "1"%char else "0"%char).
Proof.
  intros Hi Hj. unfold only_key. rewrite str_get_app, zeros_length.
  case_decide as Hlt.
  - rewrite decide_False by lia. by apply zeros_get_lt.
  - destruct (j - i)%nat as [|d] eqn:Hd.
    + by rewrite decide_True by lia.
    + rewrite decide_False by lia. cbn [String.get]. apply zeros_get_lt. lia.
Qed.

Lemma only_key_nonzero (N i : nat) : (i < N)%nat → nonzero_flags N (only_key N i).
Proof.
  intros Hi. split; [by apply only_key_length|]. split.
  - apply all_flags_intro. intros j c Hc.
    pose proof (str_get_lt _ _ _ Hc) as Hj. rewrite only_key_length in Hj by done.
    rewrite only_key_get in Hc by done. case_decide; simplify_eq; auto.
  - intros Heq. pose proof (only_key_get N i i Hi Hi) as Hget.
    rewrite Heq, decide_True in Hget by done. by apply zeros_get in Hget.
Qed.

Section FurtherProperties.
Context `{Countable A}.
Implicit Types (data : list (list A)) (sc : gmap string (gset A)).
Implicit Types (fill : list string) (labels : gmap string string).
Implicit Types (k : string) (x : A).

Lemma same_elements_sets data data' :
  Forall2 same_elements data data' →
  (list_to_set <$> data : list (gset A)) = list_to_set <$> data'.
Proof.
  induction 1 as [|g g' data data' Hg _ IH]; [done|].
  cbn [fmap list_fmap]. f_equal; [|done].
  apply set_eq. intros x. by rewrite !elem_of_list_to_set.
Qed.

Lemma same_elements_universe data data' :
  Forall2 same_elements data data' → universe data = universe data'.
Proof.
  intros Hall. apply set_eq. intros x. rewrite !elem_of_universe. split.
  - intros (i & g & Hi & Hx).
    destruct (Forall2_lookup_l _ _ _ _ _ Hall Hi) as (g' & Hi' & Hg).
    exists i, g'. split; [done|]. by apply Hg.
  - intros (i & g' & Hi' & Hx).
    destruct (Forall2_lookup_r _ _ _ _ _ Hall Hi') as (g & Hi & Hg).
    exists i, g. split; [done|]. by apply Hg.
Qed.

(** X1 (set semantics). Only the set of elements of each group counts:
    groups whose elements are listed in another order or repeated give the
    same result. *)
Theorem get_labels_set_based data data' fill :
  Forall2 same_elements data data' →
  get_labels data fill = get_labels data' fill.
Proof.
  intros Hall. unfold get_labels, region_sets.
  rewrite !make_sets_range.
  rewrite (same_elements_sets data data' Hall),
          (same_elements_universe data data' Hall),
          (Forall2_length _ _ _ Hall).
  done.
Qed.

(** X2 (exceptions). [get_labels] raises in one situation only: a percentage
    is asked for, there is at least one group and all the groups are empty.
    The exception is then [ZeroDivisionError]; no index or key is ever out
    of range. *)
Theorem get_labels_raises data fill (e : exn) :
  get_labels data fill = Raise e ↔
  e = ZeroDivisionError ∧ "percent" ∈ fill ∧ data ≠ [] ∧
  ∀ g, g ∈ data → g = [].
Proof.
  assert (Hu : universe data = ∅ ↔ ∀ g, g ∈ data → g = []).
  { split.
    - intros Hempty g (i & Hi)%list_elem_of_lookup.
      destruct g as [|x g]; [done|]. exfalso.
      apply (not_elem_of_empty (C := gset A) x). rewrite <-Hempty.
      apply elem_of_universe. exists i, (x :: g). split; [done|by left].
    - intros Hall. apply set_eq. intros x. rewrite elem_of_universe. split.
      + intros (i & g & Hi & Hx). rewrite (Hall g) in Hx.
        * by apply elem_of_nil in Hx.
        * apply list_elem_of_lookup. by exists i.
      + by intros ?%not_elem_of_empty. }
  destruct (get_labels_spec data fill) as (sc & _ & Hspec).
  case_decide as Hcase.
  - rewrite Hspec. split.
    + intros [= <-]. destruct Hcase as (? & ? & ?). by rewrite <-Hu.
    + by intros (-> & _).
  - destruct Hspec as (labels & -> & _). split; [done|].
    intros (_ & ? & ? & ?). destruct Hcase. by rewrite Hu.
Qed.

(** X3 (the region of an element). An element of the universe is counted
    once, in the region whose key has a 1 exactly at the groups the element
    belongs to. *)
Theorem element_region data x :
  x ∈ universe data →
  ∃ sc v, region_sets data = Ok sc ∧
          sc !! member_key data x = Some v ∧ x ∈ v ∧
          ∀ k v', sc !! k = Some v' → x ∈ v' → k = member_key data x.
Proof.
  intros Hx. destruct (region_sets_spec data) as (sc & Hsc & Hkeys & Hval).
  destruct (proj2 (Hkeys (member_key data x))) as [v Hv];
    [by apply member_key_nonzero|].
  exists sc, v. do 2 (split; [done|]). split.
  - apply (Hval _ _ Hv). by apply member_key_in_region.
  - intros k v' Hk Hxv'. destruct (decide (k = member_key data x)) as [|Hne]; [done|].
    exfalso. apply (in_region_disjoint data k (member_key data x) x).
    + apply Hkeys. by eexists.
    + by apply member_key_nonzero.
    + done.
    + by apply (Hval k v').
    + by apply member_key_in_region.
Qed.

(** X4 (common elements). For at least one group, the key of all 1s holds
    the elements common to all the groups. *)
Theorem region_of_ones data :
  data ≠ [] →
  ∃ sc v, region_sets data = Ok sc ∧
          sc !! ones (length data) = Some v ∧
          ∀ x, x ∈ v ↔ ∀ g, g ∈ data → x ∈ g.
Proof.
  intros Hdata. destruct (region_sets_spec data) as (sc & Hsc & Hkeys & Hval).
  destruct (proj2 (Hkeys (ones (length data)))) as [v Hv].
  { apply ones_nonzero. by destruct data. }
  exists sc, v. do 2 (split; [done|]). intros x. rewrite (Hval _ _ Hv). split.
  - intros [_ Hall] g (i & Hi)%list_elem_of_lookup.
    apply (Hall i g Hi).
    destruct (str_getitem_lt (ones (length data)) i) as [c Hc].
    { rewrite ones_length. by apply lookup_lt_Some in Hi. }
    by rewrite Hc, (ones_get _ _ _ Hc).
  - intros Hall. split.
    + destruct data as [|g data]; [done|].
      apply elem_of_universe. exists O, g. split; [done|]. apply Hall. by left.
    + intros i g Hi. split.
      * intros _. apply Hall, list_elem_of_lookup. by exists i.
      * intros Hc. by apply ones_get in Hc.
Qed.

(** X5 (exclusive elements). The key whose only 1 is at position [i] holds
    the elements of group [i] that are in no other group. *)
Theorem region_of_only_key data (i : nat) (g : list A) :
  data !! i = Some g →
  ∃ sc v, region_sets data = Ok sc ∧
          sc !! only_key (length data) i = Some v ∧
          ∀ x, x ∈ v ↔
               x ∈ g ∧ ∀ j g', j ≠ i → data !! j = Some g' → x ∉ g'.
Proof.
  intros Hi. pose proof (lookup_lt_Some _ _ _ Hi) as Hlt.
  destruct (region_sets_spec data) as (sc & Hsc & Hkeys & Hval).
  destruct (proj2 (Hkeys (only_key (length data) i))) as [v Hv];
    [by apply only_key_nonzero|].
  exists sc, v. do 2 (split; [done|]). intros x. rewrite (Hval _ _ Hv). split.
  - intros [_ Hall]. split.
    + apply (Hall i g Hi). by rewrite only_key_get, decide_True.
    + intros j g' Hne Hj. apply (Hall j g' Hj).
      rewrite only_key_get, decide_False; [done..|].
      by apply lookup_lt_Some in Hj.
  - intros [Hx Hall]. split.
    + apply elem_of_universe. by exists i, g.
    + intros j g' Hj. pose proof (lookup_lt_Some _ _ _ Hj) as Hjlt.
      rewrite only_key_get by done. case_decide as Hji.
      * subst j. assert (g' = g) as -> by congruence. by split.
      * split; [done|]. intros _. by apply (Hall j g').
Qed.

(** X6 (contained groups). When group [i] is contained in group [j], a
    region inside [i] and outside [j] is empty. *)
Theorem region_empty_subset data sc k (v : gset A) (i j : nat) (gi gj : list A) :
  region_sets data = Ok sc → sc !! k = Some v →
  data !! i = Some gi → data !! j = Some gj →
  (∀ x, x ∈ gi → x ∈ gj) →
  String.get i k = Some "1"%char → String.get j k = Some "0"%char →
  v = ∅.
Proof.
  intros Hsc Hk Hi Hj Hsub Hci Hcj.
  destruct (region_sets_spec data) as (sc' & Hsc' & _ & Hval).
  assert (sc' = sc) as -> by congruence.
  apply set_eq. intros x. split; [|by intros ?%not_elem_of_empty].
  intros [_ Hall]%(Hval k v Hk). exfalso.
  apply (proj2 (Hall j gj Hj) Hcj), Hsub, (proj1 (Hall i gi Hi) Hci).
Qed.

(** X7 (disjoint groups). When groups [i] and [j] have no element in common,
    a region inside both is empty. *)
Theorem region_empty_disjoint data sc k (v : gset A) (i j : nat) (gi gj : list A) :
  region_sets data = Ok sc → sc !! k = Some v →
  data !! i = Some gi → data !! j = Some gj →
  (∀ x, x ∈ gi → x ∉ gj) →
  String.get i k = Some "1"%char → String.get j k = Some "1"%char →
  v = ∅.
Proof.
  intros Hsc Hk Hi Hj Hdisj Hci Hcj.
  destruct (region_sets_spec data) as (sc' & Hsc' & _ & Hval).
  assert (sc' = sc) as -> by congruence.
  apply set_eq. intros x. split; [|by intros ?%not_elem_of_empty].
  intros [_ Hall]%(Hval k v Hk). exfalso.
  apply (Hdisj x); [apply (proj1 (Hall i gi Hi) Hci)|apply (proj1 (Hall j gj Hj) Hcj)].
Qed.

(** X8 (empty region). When a percentage is asked for and a mapping is
    returned, the label of an empty region ends with 0.0 percent. *)
Theorem empty_region_percent data fill labels sc k :
  get_labels data fill = Ok labels → "percent" ∈ fill →
  region_sets data = Ok sc → sc !! k = Some ∅ →
  labels !! k =
  Some ((logic_fragment fill k +:+ number_fragment fill 0) +:+ "(0.0%)").
Proof.
  intros Hrun Hp Hsc Hk.
  destruct (get_labels_Ok_inv data fill labels Hrun) as (sc' & Hsc' & Hkeys & _ & Hlook).
  assert (sc' = sc) as -> by congruence.
  rewrite Hlook, Hk. cbn. f_equal. unfold label_of. f_equal.
  unfold percent_fragment. rewrite decide_True by done.
  change (Py.len (∅ : gset A)) with 0.
  rewrite percent_value_zero; [done|].
  assert (universe data ≠ ∅) as Hne.
  { intros Hempty. assert (data ≠ []) as Hdata.
    { intros ->. destruct (proj1 (Hkeys k) ltac:(by eexists)) as (Hlen & _ & Hnz).
      apply Hnz. destruct k; [done|discriminate Hlen]. }
    destruct (get_labels_spec data fill) as (? & _ & Hspec).
    rewrite decide_True in Hspec by done. congruence. }
  unfold Py.len. assert (size (universe data) ≠ O); [|lia].
  intros Hsize. by apply Hne, leibniz_equiv, size_empty_inv.
Qed.

End FurtherProperties.

(** ** The drawing functions *)

Lemma default_colors_scaled : scale_colors default_colors_table = Ok default_colors.
Proof. vm_compute. reflexivity. Qed.

Example default_colors_length : length default_colors = 6%nat.
Proof. reflexivity. Qed.

Example run_venn2 :
  texts (venn2 ∅ ["left"; "right"] {| opt_colors := None; opt_figsize := None; opt_dpi := None |}).2
  = zip ["left"; "right"] (take 2 default_colors).
Proof. vm_compute. reflexivity. Qed.






(** ** Groups given in another order *)

Lemma nonzero_flags_one (N : nat) (k : string) :
  nonzero_flags N k ↔
  String.length k = N ∧ all_flags k ∧ ∃ i, String.get i k = Some "1"%char.
Proof.
  unfold nonzero_flags. split.
  - intros (Hlen & Hall & Hnz). do 2 (split; [done|]).
    destruct (str_differ k (Py.zeros N)) as (i & c & d & Hc & Hd & Hcd);
      [by rewrite zeros_length|done|].
    exists i. apply zeros_get in Hd as ->.
    by destruct (all_flags_get k i c Hall Hc) as [-> | ->].
  - intros (Hlen & Hall & i & Hi). do 2 (split; [done|]).
    intros ->. by apply zeros_get in Hi.
Qed.

Lemma pick_flags_get (p : list nat) (k : string) (j : nat) :
  (∀ i, i ∈ p → (i < String.length k)%nat) →
  String.get j (pick_flags p k) = p !! j ≫= λ i, String.get i k.
Proof.
  revert j. induction p as [|i p IH]; intros j Hp; [by destruct j|].
  destruct (str_getitem_lt k i) as [c Hc]; [apply Hp; by left|].
  cbn [pick_flags]. rewrite Hc. destruct j as [|j]; cbn.
  - by rewrite Hc.
  - apply IH. intros i' Hi'. apply Hp. by right.
Qed.

Lemma pick_flags_length (p : list nat) (k : string) :
  (∀ i, i ∈ p → (i < String.length k)%nat) →
  String.length (pick_flags p k) = length p.
Proof.
  induction p as [|i p IH]; intros Hp; [done|].
  destruct (str_getitem_lt k i) as [c Hc]; [apply Hp; by left|].
  cbn [pick_flags]. rewrite Hc. cbn. f_equal. apply IH.
  intros i' Hi'. apply Hp. by right.
Qed.

Lemma pick_groups_lookup {A : Type} (p : list nat) (data : list (list A)) (j : nat) :
  (∀ i, i ∈ p → (i < length data)%nat) →
  pick_groups p data !! j = p !! j ≫= λ i, data !! i.
Proof.
  unfold pick_groups. revert j. induction p as [|i p IH]; intros j Hp; [by destruct j|].
  destruct (lookup_lt_is_Some_2 data i) as [g Hg]; [apply Hp; by left|].
  cbn [omap list_omap]. rewrite Hg. destruct j as [|j]; cbn.
  - by rewrite Hg.
  - apply IH. intros i' Hi'. apply Hp. by right.
Qed.

Lemma pick_groups_length {A : Type} (p : list nat) (data : list (list A)) :
  (∀ i, i ∈ p → (i < length data)%nat) →
  length (pick_groups p data) = length p.
Proof.
  unfold pick_groups. induction p as [|i p IH]; intros Hp; [done|].
  destruct (lookup_lt_is_Some_2 data i) as [g Hg]; [apply Hp; by left|].
  cbn [omap list_omap]. rewrite Hg. cbn. f_equal. apply IH.
  intros i' Hi'. apply Hp. by right.
Qed.

Section Reordering.
Context `{Countable A}.
Implicit Types (data : list (list A)) (k : string) (x : A) (p : list nat).

Lemma in_region_pick data p k x :
  p ≡ₚ seq 0 (length data) → String.length k = length data →
  in_region (pick_groups p data) (pick_flags p k) x ↔ in_region data k x.
Proof.
  intros Hperm Hlen.
  assert (Hp : ∀ i, i ∈ p ↔ (i < length data)%nat).
  { intros i. rewrite Hperm, elem_of_seq. lia. }
  assert (Hpd : ∀ i, i ∈ p → (i < length data)%nat) by (intros i; apply Hp).
  assert (Hpk : ∀ i, i ∈ p → (i < String.length k)%nat)
    by (intros i; rewrite Hlen; apply Hp).
  assert (Hcond : (∀ j g, pick_groups p data !! j = Some g →
                     (String.get j (pick_flags p k) = Some "1"%char → x ∈ g) ∧
                     (String.get j (pick_flags p k) = Some "0"%char → x ∉ g)) ↔
                  (∀ i g, data !! i = Some g →
                     (String.get i k = Some "1"%char → x ∈ g) ∧
                     (String.get i k = Some "0"%char → x ∉ g))).
  { split.
    - intros Hall i g Hi.
      assert (i ∈ p) as (j & Hj)%list_elem_of_lookup
        by (apply Hp; by apply lookup_lt_Some in Hi).
      specialize (Hall j g).
      rewrite pick_groups_lookup, pick_flags_get, Hj in Hall by done.
      by apply Hall.
    - intros Hall j g.
      rewrite pick_groups_lookup, pick_flags_get by done.
      destruct (p !! j) as [i|]; [|done]. cbn. apply Hall. }
  unfold in_region. rewrite Hcond. apply and_iff_compat_r.
  rewrite !elem_of_universe. split.
  - intros (j & g & Hj & Hx). rewrite pick_groups_lookup in Hj by done.
    destruct (p !! j) as [i|]; [|done]. by exists i, g.
  - intros (i & g & Hi & Hx).
    assert (i ∈ p) as (j & Hj)%list_elem_of_lookup
      by (apply Hp; by apply lookup_lt_Some in Hi).
    exists j, g. split; [|done]. by rewrite pick_groups_lookup, Hj.
Qed.

Lemma nonzero_flags_pick (N : nat) p k :
  p ≡ₚ seq 0 N → nonzero_flags N k → nonzero_flags N (pick_flags p k).
Proof.
  intros Hperm (Hlen & Hall & i & Hi)%nonzero_flags_one.
  assert (Hp : ∀ i, i ∈ p ↔ (i < N)%nat).
  { intros i'. rewrite Hperm, elem_of_seq. lia. }
  assert (Hpk : ∀ i, i ∈ p → (i < String.length k)%nat)
    by (intros i'; rewrite Hlen; apply Hp).
  apply nonzero_flags_one. split; [|split].
  - rewrite pick_flags_length by done. by rewrite Hperm, length_seq.
  - apply all_flags_intro. intros j c. rewrite pick_flags_get by done.
    destruct (p !! j) as [i'|]; [|done]. cbn. by apply all_flags_get.
  - assert (i ∈ p) as (j & Hj)%list_elem_of_lookup.
    { apply Hp. rewrite <-Hlen. by eapply str_get_lt. }
    exists j. by rewrite pick_flags_get, Hj.
Qed.

(** X9 (order of the groups). Giving the groups in another order only moves
    the flags inside the keys: the region of a key is the region, for the
    reordered groups, of the key with its flags reordered in the same way. *)
Theorem region_sets_reorder data p :
  p ≡ₚ seq 0 (length data) →
  ∃ sc sc', region_sets data = Ok sc ∧
            region_sets (pick_groups p data) = Ok sc' ∧
            ∀ k, is_Some (sc !! k) → sc' !! pick_flags p k = sc !! k.
Proof.
  intros Hperm.
  assert (Hpd : ∀ i, i ∈ p → (i < length data)%nat).
  { intros i. rewrite Hperm, elem_of_seq. lia. }
  assert (Hlen' : length (pick_groups p data) = length data).
  { rewrite pick_groups_length by done. by rewrite Hperm, length_seq. }
  destruct (region_sets_spec data) as (sc & Hsc & Hkeys & Hval).
  destruct (region_sets_spec (pick_groups p data)) as (sc' & Hsc' & Hkeys' & Hval').
  exists sc, sc'. do 2 (split; [done|]). intros k [v Hv].
  pose proof (proj1 (Hkeys k) ltac:(by eexists)) as Hk.
  destruct (proj2 (Hkeys' (pick_flags p k))) as [v' Hv'].
  { rewrite Hlen'. by apply nonzero_flags_pick. }
  rewrite Hv, Hv'. f_equal. apply set_eq. intros x.
  rewrite (Hval' _ _ Hv'), (Hval _ _ Hv).
  apply in_region_pick; [done|]. by destruct Hk.
Qed.

End Reordering.

(** ** The further properties at concrete inputs *)

Lemma get_labels_set_based_witness :
  Forall2 same_elements [[1; 1; 2]; [2; 2]] [[2; 1]; [2]] ∧
  get_labels [[1; 1; 2]; [2; 2]] ["number"] = get_labels [[2; 1]; [2]] ["number"].
Proof.
  assert (Hall : Forall2 same_elements [[1; 1; 2]; [2; 2]] [[2; 1]; [2]]).
  { constructor; [|constructor; [|constructor]];
      intros x; rewrite !elem_of_cons, !elem_of_nil; tauto. }
  split; [done|]. exact (get_labels_set_based _ _ ["number"] Hall).
Defined.

Lemma element_region_witness :
  5 ∈ universe reference_data ∧
  ∃ sc v, region_sets reference_data = Ok sc ∧
          sc !! member_key reference_data 5 = Some v ∧ 5 ∈ v ∧
          ∀ k v', sc !! k = Some v' → 5 ∈ v' → k = member_key reference_data 5.
Proof.
  assert (Hx : 5 ∈ universe reference_data) by by_decide.
  split; [done|]. exact (element_region reference_data 5 Hx).
Defined.

Lemma region_of_ones_witness :
  reference_data ≠ [] ∧
  ∃ sc v, region_sets reference_data = Ok sc ∧
          sc !! ones (length reference_data) = Some v ∧
          ∀ x, x ∈ v ↔ ∀ g, g ∈ reference_data → x ∈ g.
Proof.
  assert (Hne : reference_data ≠ []) by discriminate.
  split; [done|]. exact (region_of_ones reference_data Hne).
Defined.

Lemma region_of_only_key_witness :
  reference_data !! 1%nat = Some (Py.range 5 15) ∧
  ∃ sc v, region_sets reference_data = Ok sc ∧
          sc !! only_key (length reference_data) 1 = Some v ∧
          ∀ x, x ∈ v ↔
               x ∈ Py.range 5 15 ∧
               ∀ j g', j ≠ 1%nat → reference_data !! j = Some g' → x ∉ g'.
Proof.
  split; [reflexivity|].
  apply (region_of_only_key reference_data 1 (Py.range 5 15)). reflexivity.
Defined.

Lemma region_empty_subset_witness :
  region_sets inner_data = Ok inner_sets ∧ inner_sets !! "10" = Some ∅ ∧
  inner_data !! 0%nat = Some [1; 2] ∧ inner_data !! 1%nat = Some [1; 2; 3] ∧
  (∀ x : Z, x ∈ [1; 2] → x ∈ [1; 2; 3]) ∧
  String.get 0 "10" = Some "1"%char ∧ String.get 1 "10" = Some "0"%char ∧
  (∅ : gset Z) = ∅.
Proof.
  assert (Hrun : region_sets inner_data = Ok inner_sets) by (vm_compute; reflexivity).
  assert (Hk : inner_sets !! "10" = Some ∅) by (vm_compute; reflexivity).
  assert (Hsub : ∀ x : Z, x ∈ [1; 2] → x ∈ [1; 2; 3]).
  { intros x. rewrite !elem_of_cons, !elem_of_nil. tauto. }
  do 7 (split; [done|]).
  exact (region_empty_subset inner_data inner_sets "10" ∅ 0 1 [1; 2] [1; 2; 3]
           Hrun Hk eq_refl eq_refl Hsub eq_refl eq_refl).
Defined.

Lemma region_empty_disjoint_witness :
  region_sets apart_data = Ok apart_sets ∧ apart_sets !! "11" = Some ∅ ∧
  apart_data !! 0%nat = Some [1; 2] ∧ apart_data !! 1%nat = Some [3] ∧
  (∀ x : Z, x ∈ [1; 2] → x ∉ [3]) ∧
  String.get 0 "11" = Some "1"%char ∧ String.get 1 "11" = Some "1"%char ∧
  (∅ : gset Z) = ∅.
Proof.
  assert (Hrun : region_sets apart_data = Ok apart_sets) by (vm_compute; reflexivity).
  assert (Hk : apart_sets !! "11" = Some ∅) by (vm_compute; reflexivity).
  assert (Hdisj : ∀ x : Z, x ∈ [1; 2] → x ∉ [3]).
  { intros x. rewrite !elem_of_cons, !elem_of_nil. lia. }
  do 7 (split; [done|]).
  exact (region_empty_disjoint apart_data apart_sets "11" ∅ 0 1 [1; 2] [3]
           Hrun Hk eq_refl eq_refl Hdisj eq_refl eq_refl).
Defined.

Lemma empty_region_percent_witness :
  get_labels nested_data ["logic"; "number"; "percent"] = Ok nested_labels ∧
  "percent" ∈ ["logic"; "number"; "percent"] ∧
  region_sets nested_data = Ok nested_sets ∧ nested_sets !! "01" = Some ∅ ∧
  nested_labels !! "01" =
  Some ((logic_fragment ["logic"; "number"; "percent"] "01" +:+
         number_fragment ["logic"; "number"; "percent"] 0) +:+ "(0.0%)").
Proof.
  assert (Hrun : get_labels nested_data ["logic"; "number"; "percent"] = Ok nested_labels)
    by (vm_compute; reflexivity).
  assert (Hp : "percent" ∈ ["logic"; "number"; "percent"]) by by_decide.
  assert (Hsc : region_sets nested_data = Ok nested_sets) by (vm_compute; reflexivity).
  assert (Hk : nested_sets !! "01" = Some ∅) by (vm_compute; reflexivity).
  do 4 (split; [done|]).
  exact (empty_region_percent nested_data _ nested_labels nested_sets "01" Hrun Hp Hsc Hk).
Defined.

Lemma region_sets_reorder_witness :
  [2; 0; 1]%nat ≡ₚ seq 0 (length reference_data) ∧
  ∃ sc sc', region_sets reference_data = Ok sc ∧
            region_sets (pick_groups [2; 0; 1]%nat reference_data) = Ok sc' ∧
            ∀ k, is_Some (sc !! k) → sc' !! pick_flags [2; 0; 1]%nat k = sc !! k.
Proof.
  assert (Hperm : [2; 0; 1]%nat ≡ₚ seq 0 (length reference_data)).
  { cbn. etrans; [apply perm_swap|]. apply perm_skip, perm_swap. }
  split; [done|]. exact (region_sets_reorder reference_data _ Hperm).
Defined.


